(** * Resource generators of the catalog modules

    A shallow embedding of two generators of the module catalog:

    - [Postgres]: [GenerateAlicloudResources] and its three builders
      (the Alicloud flavour of the PostgreSQL module);
    - [K8sManifest]: [Generate], [CompleteConfig], [ValidateConfig],
      [appendManifest] and [ignoreFile] of the k8s_manifest module.

    Go maps are [gmap]s, [nil] maps and pointers are [option]s, a function
    returning [(value, error)] returns a [result], and code of other
    packages is a field of a class of collaborators. *)

From stdpp Require Import gmap strings list fin_maps sorting.
From Stdlib Require Import ZArith Ascii.

Local Open Scope Z_scope.

(** * Results of fallible calls *)

Inductive result (E A : Type) : Type :=
| Ok (a : A)
| Err (e : E).
Arguments Ok {E A} a.
Arguments Err {E A} e.

Definition rbind {E A B} (r : result E A) (f : A → result E B) : result E B :=
  match r with
  | Ok a => f a
  | Err e => Err e
  end.

Definition rlift {E E' A} (h : E → E') (r : result E A) : result E' A :=
  match r with
  | Ok a => Ok a
  | Err e => Err (h e)
  end.

#[global] Instance result_bind {E} : MBind (result E) := λ A B f r, rbind r f.
#[global] Instance result_ret {E} : MRet (result E) := λ A a, Ok a.

(** * The part of Go's [strings] package the generators call *)

Module GoStrings.

(** [strings.HasPrefix]. *)
Fixpoint HasPrefix (s prefix : string) {struct prefix} : bool :=
  match prefix, s with
  | EmptyString, _ => true
  | String _ _, EmptyString => false
  | String p prefix', String c s' => Ascii.eqb c p && HasPrefix s' prefix'
  end.

(** [strings.Contains]: [substr] occurs at some offset of [s]. *)
Fixpoint Contains (s substr : string) : bool :=
  HasPrefix s substr ||
  match s with
  | EmptyString => false
  | String _ s' => Contains s' substr
  end.

End GoStrings.
(** * The Alicloud PostgreSQL generator *)

Module Postgres.

(** [module.ProviderConfig] of the module framework; [ProviderMeta] is a
    [map[string]any] that this package only fills with the region. *)
Record ProviderConfig := {
  Source : string;
  ProviderVersion : string;
  ProviderMeta : gmap string string;
}.

Inductive error :=
| ErrEmptyAlicloudProviderRegion
| CalleeError (msg : string).

Definition alicloudRegionEnv := "ALICLOUD_REGION".
Definition alicloudDBInstance := "alicloud_db_instance".
Definition alicloudDBConnection := "alicloud_db_connection".
Definition alicloudRDSAccount := "alicloud_rds_account".

Definition defaultAlicloudProviderCfg : ProviderConfig :=
  {| Source := "aliyun/alicloud"; ProviderVersion := "1.209.1"; ProviderMeta := ∅ |}.

Record alicloudServerlessConfig := {
  AutoPause : bool;
  SwitchForce : bool;
  MaxCapacity : Z;
  MinCapacity : Z;
}.

(** The Go values stored in the [map[string]interface{}] of attributes. *)
Inductive attr :=
| AString (s : string)
| AInt (n : Z)
| AStrings (l : list string)
| AServerless (l : list alicloudServerlessConfig).

(** Modelled from the spec: the receiver type [PostgreSQL] is declared
    outside the given sources; these are the options of the effective
    configuration that the Alicloud generator reads from it. *)
Record PostgreSQL := {
  Category : string;
  Version : string;
  Size : Z;
  InstanceType : string;
  SecurityIPs : list string;
  SubnetID : string;
  DatabaseName : string;
  Username : string;
  PrivateRouting : bool;
}.

(** What the generator calls but does not define: the functions of the
    module framework, the two builders of the PostgreSQL module that
    live in other files, and the public-accessibility predicate.  An
    error of a callee is a message; it is never the package's own
    [ErrEmptyAlicloudProviderRegion] value. *)
Class Collaborators := {
  Resource : Type;
  Patcher : Type;
  GeneratorRequest : Type;
  TerraformProviderRegion : ProviderConfig → string;
  TerraformResourceID : ProviderConfig → string → string → result string string;
  KusionPathDependency : string → string → string;
  WrapTFResourceToKusionResource :
    ProviderConfig → string → string → gmap string attr → list string →
    result string Resource;
  GenerateTFRandomPassword :
    PostgreSQL → GeneratorRequest → result string (Resource * string);
  GenerateDBSecret :
    PostgreSQL → GeneratorRequest → string → string → string →
    result string (Resource * Patcher);
  IsPublicAccessible : list string → bool;
}.

Section Generator.
Context {collaborators : Collaborators}.

Definition callee {A} (r : result string A) : result error A :=
  rlift CalleeError r.

(** The attributes of the alicloud_db_instance resource. *)
Definition dbInstanceAttrs (postgres : PostgreSQL) : gmap string attr :=
  let resAttrs : gmap string attr :=
    <["category" := AString (Category postgres)]> $
    <["engine" := AString "PostgreSQL"]> $
    <["engine_version" := AString (Version postgres)]> $
    <["instance_storage" := AInt (Size postgres)]> $
    <["instance_type" := AString (InstanceType postgres)]> $
    <["security_ips" := AStrings (SecurityIPs postgres)]> $
    <["vswitch_id" := AString (SubnetID postgres)]> $
    <["instance_name" := AString (DatabaseName postgres)]> ∅ in
  if GoStrings.Contains (Category postgres) "serverless" then
    let resAttrs := <["db_instance_storage_type" := AString "cloud_essd"]> resAttrs in
    let resAttrs := <["instance_charge_type" := AString "Serverless"]> resAttrs in
    let serverlessConfig :=
      {| AutoPause := false; SwitchForce := false;
         MaxCapacity := 8; MinCapacity := 1 |} in
    <["serverless_config" := AServerless [serverlessConfig]]> resAttrs
  else resAttrs.

Definition withRegion (cfg : ProviderConfig) (region : string) : ProviderConfig :=
  {| Source := Source cfg; ProviderVersion := ProviderVersion cfg;
     ProviderMeta := {["region" := region]} |}.

Definition generateAlicloudDBInstance (postgres : PostgreSQL)
    (alicloudProviderCfg : ProviderConfig) (region : string)
    : result error (Resource * string) :=
  let resAttrs := dbInstanceAttrs postgres in
  id ← callee (TerraformResourceID alicloudProviderCfg alicloudDBInstance
                 (DatabaseName postgres));
  let alicloudProviderCfg := withRegion alicloudProviderCfg region in
  resource ← callee (WrapTFResourceToKusionResource alicloudProviderCfg
                       alicloudDBInstance id resAttrs []);
  Ok (resource, id).

Definition dbConnectionAttrs (dbInstanceID : string) : gmap string attr :=
  <["instance_id" := AString (KusionPathDependency dbInstanceID "id")]> $
  <["port" := AInt 5432]> ∅.

Definition generateAlicloudDBConnection (postgres : PostgreSQL)
    (alicloudProviderCfg : ProviderConfig) (region dbInstanceID : string)
    : result error (Resource * string) :=
  let resAttrs := dbConnectionAttrs dbInstanceID in
  id ← callee (TerraformResourceID alicloudProviderCfg alicloudDBConnection
                 (DatabaseName postgres));
  let alicloudProviderCfg := withRegion alicloudProviderCfg region in
  resource ← callee (WrapTFResourceToKusionResource alicloudProviderCfg
                       alicloudDBConnection id resAttrs []);
  Ok (resource, id).

Definition rdsAccountAttrs (accountName randomPasswordID dbInstanceID : string)
    : gmap string attr :=
  <["account_name" := AString accountName]> $
  <["account_password" := AString (KusionPathDependency randomPasswordID "result")]> $
  <["account_type" := AString "Super"]> $
  <["db_instance_id" := AString (KusionPathDependency dbInstanceID "id")]> ∅.

Definition generateAlicloudRDSAccount (postgres : PostgreSQL)
    (alicloudProviderCfg : ProviderConfig)
    (region accountName randomPasswordID dbInstanceID : string)
    : result error Resource :=
  let resAttrs := rdsAccountAttrs accountName randomPasswordID dbInstanceID in
  id ← callee (TerraformResourceID alicloudProviderCfg alicloudRDSAccount
                 (DatabaseName postgres));
  let alicloudProviderCfg := withRegion alicloudProviderCfg region in
  callee (WrapTFResourceToKusionResource alicloudProviderCfg
            alicloudRDSAccount id resAttrs []).

(** The region of the provider: the provider configuration first, the
    process environment ([getenv] is [os.Getenv]) when it has none. *)
Definition alicloudRegion (getenv : string → string) : string :=
  let region := TerraformProviderRegion defaultAlicloudProviderCfg in
  if decide (region = "") then getenv alicloudRegionEnv else region.

(** The host address handed to the secret: first the instance's
    connection string, replaced when private routing is off. *)
Definition hostAddressOf (postgres : PostgreSQL)
    (alicloudDBInstanceID alicloudDBConnectionID : string) : string :=
  let hostAddress := KusionPathDependency alicloudDBInstanceID "connection_string" in
  if negb (PrivateRouting postgres)
  then KusionPathDependency alicloudDBConnectionID "connection_string"
  else hostAddress.

(** [Err e] is [return nil, nil, e]. *)
Definition GenerateAlicloudResources (getenv : string → string)
    (postgres : PostgreSQL) (request : GeneratorRequest)
    : result error (list Resource * Patcher) :=
  let resources : list Resource := [] in
  let alicloudProviderCfg := defaultAlicloudProviderCfg in
  let region := alicloudRegion getenv in
  if decide (region = "") then Err ErrEmptyAlicloudProviderRegion else
  '(randomPasswordRes, randomPasswordID) ←
     callee (GenerateTFRandomPassword postgres request);
  let resources := resources ++ [randomPasswordRes] in
  '(alicloudDBInstanceRes, alicloudDBInstanceID) ←
     generateAlicloudDBInstance postgres alicloudProviderCfg region;
  let resources := resources ++ [alicloudDBInstanceRes] in
  '(resources, alicloudDBConnectionID) ←
     (if IsPublicAccessible (SecurityIPs postgres) then
        '(alicloudDBConnectionRes, alicloudDBConnectionID) ←
           generateAlicloudDBConnection postgres alicloudProviderCfg region
             alicloudDBInstanceID;
        Ok (resources ++ [alicloudDBConnectionRes], alicloudDBConnectionID)
      else Ok (resources, ""));
  alicloudRDSAccountRes ←
     generateAlicloudRDSAccount postgres alicloudProviderCfg region
       (Username postgres) randomPasswordID alicloudDBInstanceID;
  let resources := resources ++ [alicloudRDSAccountRes] in
  let hostAddress := hostAddressOf postgres alicloudDBInstanceID alicloudDBConnectionID in
  let password := KusionPathDependency randomPasswordID "result" in
  '(dbSecret, patcher) ←
     callee (GenerateDBSecret postgres request hostAddress (Username postgres) password);
  let resources := resources ++ [dbSecret] in
  Ok (resources, patcher).

(** ** What a successful generation consists of *)

(** The steps behind a returned resource list, in the order the
    generator takes them. *)
Inductive Steps (getenv : string → string) (postgres : PostgreSQL)
    (request : GeneratorRequest) : list Resource → Patcher → Prop :=
| StepsDone pw pwID inst instID (conn : option (Resource * string)) acct secret p :
    alicloudRegion getenv ≠ "" →
    GenerateTFRandomPassword postgres request = Ok (pw, pwID) →
    generateAlicloudDBInstance postgres defaultAlicloudProviderCfg
      (alicloudRegion getenv) = Ok (inst, instID) →
    (if IsPublicAccessible (SecurityIPs postgres) then
       ∃ c, conn = Some c ∧
         generateAlicloudDBConnection postgres defaultAlicloudProviderCfg
           (alicloudRegion getenv) instID = Ok c
     else conn = None) →
    generateAlicloudRDSAccount postgres defaultAlicloudProviderCfg
      (alicloudRegion getenv) (Username postgres) pwID instID = Ok acct →
    GenerateDBSecret postgres request
      (hostAddressOf postgres instID (from_option snd "" conn))
      (Username postgres) (KusionPathDependency pwID "result")
    = Ok (secret, p) →
    Steps getenv postgres request
      ([pw; inst] ++ from_option (λ c, [c.1]) [] conn ++ [acct; secret]) p.

Definition fixedServerlessConfig : alicloudServerlessConfig :=
  {| AutoPause := false; SwitchForce := false; MaxCapacity := 8; MinCapacity := 1 |}.

End Generator.

(** ** A concrete set of collaborators

    The generator is run on concrete configurations with these: symbolic
    references and resource ids are plain strings, a wrapped resource
    records what it was wrapped from. *)

Record SampleResource := {
  ID : string;
  Kind : string;
  Attributes : gmap string attr;
  Extensions : gmap string string;
}.

Definition sampleProviderRegion (cfg : ProviderConfig) : string :=
  default "" (ProviderMeta cfg !! "region").

Definition sampleResourceID (cfg : ProviderConfig) (resType resName : string)
    : result string string :=
  if decide (Source cfg = "") then Err "empty provider source"
  else Ok (Source cfg +:+ ":" +:+ resType +:+ ":" +:+ resName).

Definition samplePathDependency (id name : string) : string :=
  "$kusion_path." +:+ id +:+ "." +:+ name.

Definition sampleWrap (cfg : ProviderConfig) (resType id : string)
    (attrs : gmap string attr) (dependsOn : list string)
    : result string SampleResource :=
  Ok {| ID := id; Kind := "Terraform"; Attributes := attrs;
        Extensions := <["resourceType" := resType]> (ProviderMeta cfg) |}.

(** Modelled from the spec: [GenerateTFRandomPassword] is declared outside
    the given sources; it produces the random-password resource and
    returns its id. *)
Definition sampleRandomPassword (postgres : PostgreSQL) (request : string)
    : result string (SampleResource * string) :=
  let id := "hashicorp:random:random_password:" +:+ DatabaseName postgres +:+ "-db" in
  Ok ({| ID := id; Kind := "Terraform"; Attributes := {["length" := AInt 16]};
         Extensions := {["resourceType" := "random_password"]} |}, id).

(** Modelled from the spec: [GenerateDBSecret] is declared outside the
    given sources; it builds the secret carrying the host address, the
    username and the password, and the patch that injects them as
    environment variables. *)
Definition sampleDBSecret (postgres : PostgreSQL) (request hostAddress username password : string)
    : result string (SampleResource * list string) :=
  Ok ({| ID := "v1:Secret:" +:+ request +:+ ":" +:+ DatabaseName postgres +:+ "-postgres";
         Kind := "Kubernetes";
         Attributes := <["hostAddress" := AString hostAddress]> $
                       <["username" := AString username]> $
                       <["password" := AString password]> ∅;
         Extensions := ∅ |},
      ["KUSION_DB_HOST"; "KUSION_DB_USERNAME"; "KUSION_DB_PASSWORD"]).

(** Modelled from the spec: [IsPublicAccessible] is declared outside the
    given sources; the allow-list is public when it has an entry for the
    unrestricted range. *)
Definition sampleIsPublicAccessible (securityIPs : list string) : bool :=
  bool_decide ("0.0.0.0/0" ∈ securityIPs).

Definition sample : Collaborators := {|
  Resource := SampleResource;
  Patcher := list string;
  GeneratorRequest := string;
  TerraformProviderRegion := sampleProviderRegion;
  TerraformResourceID := sampleResourceID;
  KusionPathDependency := samplePathDependency;
  WrapTFResourceToKusionResource := sampleWrap;
  GenerateTFRandomPassword := sampleRandomPassword;
  GenerateDBSecret := sampleDBSecret;
  IsPublicAccessible := sampleIsPublicAccessible;
|}.


(** The same collaborators when no random password can be built. *)
Definition withoutPassword : Collaborators := {|
  Resource := SampleResource;
  Patcher := list string;
  GeneratorRequest := string;
  TerraformProviderRegion := sampleProviderRegion;
  TerraformResourceID := sampleResourceID;
  KusionPathDependency := samplePathDependency;
  WrapTFResourceToKusionResource := sampleWrap;
  GenerateTFRandomPassword := λ _ _, Err "random provider is not configured";
  GenerateDBSecret := sampleDBSecret;
  IsPublicAccessible := sampleIsPublicAccessible;
|}.

(** What a run shows of its resources: the id, the wrapped resource
    type and the host address, where there is one. *)
Definition summary (r : SampleResource)
    : string * option string * option attr :=
  (ID r, Extensions r !! "resourceType", Attributes r !! "hostAddress").

Definition summaries (run : result error (list SampleResource * list string))
    : list (string * option string * option attr) :=
  match run with
  | Ok (rs, _) => summary <$> rs
  | Err _ => []
  end.

Definition hangzhouEnv (name : string) : string :=
  if decide (name = "ALICLOUD_REGION") then "cn-hangzhou" else "".

Definition emptyEnv (name : string) : string := "".

(** A serverless database open to every address, reached through its
    public connection. *)
Definition serverlessDB : PostgreSQL := {|
  Category := "serverless_basic"; Version := "15.0"; Size := 20;
  InstanceType := "pg.n2.serverless.1c"; SecurityIPs := ["0.0.0.0/0"];
  SubnetID := "vsw-1"; DatabaseName := "orders"; Username := "admin";
  PrivateRouting := false;
|}.

(** A database whose allow-list is a private range while private routing
    is off. *)
Definition closedDB : PostgreSQL := {|
  Category := "Basic"; Version := "15.0"; Size := 20;
  InstanceType := "pg.n2.2c.1m"; SecurityIPs := ["10.0.0.0/8"];
  SubnetID := "vsw-1"; DatabaseName := "orders"; Username := "admin";
  PrivateRouting := false;
|}.

(** The same database reached through private routing. *)
Definition privateDB : PostgreSQL := {|
  Category := "Basic"; Version := "15.0"; Size := 20;
  InstanceType := "pg.n2.2c.1m"; SecurityIPs := ["10.0.0.0/8"];
  SubnetID := "vsw-1"; DatabaseName := "orders"; Username := "admin";
  PrivateRouting := true;
|}.

End Postgres.

(** * The k8s_manifest generator *)

Module K8sManifest.

(** ** Decoded documents *)

(** What the YAML-or-JSON decoder stores in an [interface{}]; an object
    is a [map[string]interface{}], kept as its list of entries. *)
#[warnings="-register-all"]
Inductive value :=
| VNull
| VBool (b : bool)
| VNumber (n : Z)
| VString (s : string)
| VList (l : list value)
| VMap (m : list (string * value)).

Definition object : Type := list (string * value).

(** [m[key]] together with its presence flag. *)
Fixpoint index (m : object) (key : string) : option value :=
  match m with
  | [] => None
  | (k, v) :: m' => if decide (k = key) then Some v else index m' key
  end.

(** ** Panics and errors *)

Inductive panic :=
| TypeAssertion (wanted : string) (found : option value)
| NilMapAssignment.

Inductive outcome (A : Type) : Type :=
| Returns (a : A)
| Panics (r : panic).
Arguments Returns {A} a.
Arguments Panics {A} r.

#[global] Instance outcome_bind : MBind outcome := λ A B f o,
  match o with
  | Returns a => f a
  | Panics r => Panics r
  end.
#[global] Instance outcome_ret : MRet outcome := λ A a, Returns a.

Inductive error :=
| ConfigError (msg : string)
| PathError (msg : string)
| ParseError (filePath msg : string)
| ErrEmptyPaths
| RecoveredPanic (r : panic) (stack rawRequest : string).

(** ** Resources and requests *)

Inductive ResourceType := Kubernetes | Terraform.

(** [kusionapiv1.Resource], with the fields the generator fills. *)
Record Resource := {
  ID : string;
  Type_ : ResourceType;
  Attributes : object;
}.

Record GeneratorResponse := {
  Resources : list Resource;
}.

(** A configuration ([Accessory] or [GenericConfig]) as the YAML round
    trip into a [K8sManifest] reads it: the [paths] key when present,
    the [mergedPaths] key when present ([None] inside for [null]), and
    the error of [yaml.Marshal] or [yaml.Unmarshal], if any. *)
Record Config := {
  c_paths : option (list string);
  c_mergedPaths : option (option (list (string * bool)));
  c_error : option string;
}.

(** The fields of [module.GeneratorRequest] that the generator reads. *)
Record GeneratorRequest := {
  DevConfig : option Config;
  PlatformConfig : option Config;
}.

(** The module instance; [MergedPaths] is [None] for a [nil] map. *)
Record K8sManifest := {
  Paths : list string;
  MergedPaths : option (gmap string bool);
}.

(** The instance that [main] hands to the server. *)
Definition main : K8sManifest :=
  {| Paths := []; MergedPaths := Some ∅ |}.

(** ** The world outside the generator *)

(** The filesystem and the runtime: [Stat] is [os.Stat] followed by
    [IsDir]; [WalkDir] lists what [filepath.WalkDir] passes to its
    callback, in its order; [Open] is [os.Open] followed by the decoder
    stream, the documents decoded until [io.EOF] ([None]) or a decode
    error; [EqualFold] is [strings.EqualFold]; [Stack] is
    [debug.Stack()]; [Marshal] is [json.Marshal] of the request. *)
Record World := {
  Stat : string → result string bool;
  WalkDir : string → list (string * option string);
  Open : string → result string (list object * option string);
  EqualFold : string → string → bool;
  Stack : string;
  Marshal : GeneratorRequest → string;
}.

(** The order in which each of the two [range] loops over a map visits
    its keys.  Go leaves it unspecified: a schedule is any rearrangement
    of the keys. *)
Record Schedule := {
  pathOrder : list string → list string;
  fileOrder : list string → list string;
}.

Definition fair (s : Schedule) : Prop :=
  (∀ l, pathOrder s l ≡ₚ l) ∧ (∀ l, fileOrder s l ≡ₚ l).

Definition keys {V} (m : gmap string V) : list string := (map_to_list m).*1.

(** ** [ignoreFile] *)

Definition FileExtensions : list string := [".yaml"; ".yml"; ".json"].

Definition IsPathSeparator (c : Ascii.ascii) : bool := bool_decide (c = "/"%char).

(** The loop of [filepath.Ext]: from the end of the path towards its
    start, up to the first separator, looking for a dot. *)
Fixpoint extScan (before : list Ascii.ascii) (suffix : string) : string :=
  match before with
  | [] => ""
  | c :: before' =>
      if IsPathSeparator c then ""
      else if bool_decide (c = "."%char) then String c suffix
      else extScan before' (String c suffix)
  end.

Definition Ext (path : string) : string :=
  extScan (reverse (String.list_ascii_of_string path)) "".

Fixpoint matchesExtension (w : World) (ext : string) (extensions : list string) : bool :=
  match extensions with
  | [] => false
  | s :: rest => if EqualFold w s ext then true else matchesExtension w ext rest
  end.

Definition ignoreFile (w : World) (path : string) (extensions : list string) : bool :=
  if bool_decide (length extensions = 0%nat) then false
  else negb (matchesExtension w (Ext path) extensions).

(** ** [appendManifest] *)

Fixpoint appendDocuments (filePath : string) (docs : list object)
    (manifestYAMLFiles : gmap string (list object)) : gmap string (list object) :=
  match docs with
  | [] => manifestYAMLFiles
  | data :: rest =>
      if bool_decide (length data = 0%nat)
      then appendDocuments filePath rest manifestYAMLFiles
      else appendDocuments filePath rest
             (<[filePath := default [] (manifestYAMLFiles !! filePath) ++ [data]]>
                manifestYAMLFiles)
  end.

(** The map is updated in place, also when an error follows. *)
Definition appendManifest (w : World) (filePath : string)
    (manifestYAMLFiles : gmap string (list object))
    : gmap string (list object) * option error :=
  match Open w filePath with
  | Err e => (manifestYAMLFiles, Some (PathError e))
  | Ok (docs, eof) =>
      (appendDocuments filePath docs manifestYAMLFiles,
       match eof with
       | None => None
       | Some e => Some (ParseError filePath e)
       end)
  end.

(** ** [CompleteConfig] and [ValidateConfig] *)

(** [yaml.Unmarshal] into an instance: a key that is present replaces
    the slice, is merged into the map (made when [nil]), or resets the
    map for [null]; what was decoded stays when an error is returned. *)
Definition Unmarshal (c : Config) (k : K8sManifest) : K8sManifest * option error :=
  ({| Paths := default (Paths k) (c_paths c);
      MergedPaths :=
        match c_mergedPaths c with
        | None => MergedPaths k
        | Some None => None
        | Some (Some entries) =>
            Some (foldl (λ m e, <[e.1 := e.2]> m) (default ∅ (MergedPaths k)) entries)
        end |},
   ConfigError <$> c_error c).

(** [k.MergedPaths[path]]. *)
Definition merged (k : K8sManifest) (path : string) : bool :=
  default false (mp ← MergedPaths k; mp !! path).

(** [k.MergedPaths[path] = true]. *)
Definition setMerged (k : K8sManifest) (path : string) : K8sManifest * outcome unit :=
  match MergedPaths k with
  | None => (k, Panics NilMapAssignment)
  | Some mp =>
      ({| Paths := Paths k; MergedPaths := Some (<[path := true]> mp) |}, Returns ())
  end.

Fixpoint mergeDevPaths (paths : list string) (k : K8sManifest)
    : K8sManifest * outcome unit :=
  match paths with
  | [] => (k, Returns ())
  | path :: rest =>
      match setMerged k path with
      | (k', Returns _) => mergeDevPaths rest k'
      | (k', Panics r) => (k', Panics r)
      end
  end.

Fixpoint mergePlatformPaths (paths : list string) (k : K8sManifest)
    : K8sManifest * outcome unit :=
  match paths with
  | [] => (k, Returns ())
  | path :: rest =>
      if merged k path then mergePlatformPaths rest k
      else
        match setMerged k path with
        | (k', Returns _) => mergePlatformPaths rest k'
        | (k', Panics r) => (k', Panics r)
        end
  end.

(** The two blocks of [CompleteConfig].  The result is the instance as
    the block leaves it and either what it returns, [Some] error for
    [return err] and [None] when it runs to its end, or the panic that
    ended it. *)
Definition completeDev (k : K8sManifest) (devConfig : option Config)
    : K8sManifest * outcome (option error) :=
  match devConfig with
  | None => (k, Returns None)
  | Some c =>
      match Unmarshal c k with
      | (k, Some err) => (k, Returns (Some err))
      | (k, None) =>
          match mergeDevPaths (Paths k) k with
          | (k, Returns _) => (k, Returns None)
          | (k, Panics r) => (k, Panics r)
          end
      end
  end.

Definition completePlatform (k : K8sManifest) (platformConfig : option Config)
    : K8sManifest * outcome (option error) :=
  match platformConfig with
  | None => (k, Returns None)
  | Some c =>
      match Unmarshal c {| Paths := []; MergedPaths := None |} with
      | (_, Some err) => (k, Returns (Some err))
      | (tmpK, None) =>
          match mergePlatformPaths (Paths tmpK) k with
          | (k, Returns _) => (k, Returns None)
          | (k, Panics r) => (k, Panics r)
          end
      end
  end.

Definition CompleteConfig (k : K8sManifest) (devConfig platformConfig : option Config)
    : K8sManifest * outcome (option error) :=
  match completeDev k devConfig with
  | (k, Returns None) => completePlatform k platformConfig
  | stopped => stopped
  end.

Definition ValidateConfig (k : K8sManifest) : option error :=
  if bool_decide (length (keys (default ∅ (MergedPaths k))) = 0%nat)
  then Some ErrEmptyPaths
  else None.

(** ** [Generate] *)

(** The callback of [filepath.WalkDir] over the entries of a directory. *)
Fixpoint walk (w : World) (entries : list (string * option string))
    (manifestYAMLFiles : gmap string (list object))
    : gmap string (list object) * option error :=
  match entries with
  | [] => (manifestYAMLFiles, None)
  | (filePath, Some e) :: _ => (manifestYAMLFiles, Some (PathError e))
  | (filePath, None) :: rest =>
      if ignoreFile w filePath FileExtensions then walk w rest manifestYAMLFiles
      else
        match appendManifest w filePath manifestYAMLFiles with
        | (manifestYAMLFiles, Some err) => (manifestYAMLFiles, Some err)
        | (manifestYAMLFiles, None) => walk w rest manifestYAMLFiles
        end
  end.

(** The body of the first loop, for one path. *)
Definition visitPath (w : World) (path : string)
    (manifestYAMLFiles : gmap string (list object))
    : gmap string (list object) * option error :=
  match Stat w path with
  | Err e => (manifestYAMLFiles, Some (PathError e))
  | Ok true => walk w (WalkDir w path) manifestYAMLFiles
  | Ok false => appendManifest w path manifestYAMLFiles
  end.

Fixpoint visitPaths (w : World) (paths : list string)
    (manifestYAMLFiles : gmap string (list object))
    : gmap string (list object) * option error :=
  match paths with
  | [] => (manifestYAMLFiles, None)
  | path :: rest =>
      match visitPath w path manifestYAMLFiles with
      | (manifestYAMLFiles, Some err) => (manifestYAMLFiles, Some err)
      | (manifestYAMLFiles, None) => visitPaths w rest manifestYAMLFiles
      end
  end.

(** [v.(string)] and [v.(map[string]interface{})]; [None] is the [nil]
    interface of a missing key. *)
Definition assertString (v : option value) : outcome string :=
  match v with
  | Some (VString s) => Returns s
  | _ => Panics (TypeAssertion "string" v)
  end.

Definition assertMap (v : option value) : outcome object :=
  match v with
  | Some (VMap m) => Returns m
  | _ => Panics (TypeAssertion "map[string]interface {}" v)
  end.

(** The body of the second loop, for one document.  The documents of
    the map are the non-empty objects [appendManifest] stored, so the
    [nil] test of the loop never fires. *)
Definition toResource (obj : object) : outcome Resource :=
  apiVersion ← assertString (index obj "apiVersion");
  kind ← assertString (index obj "kind");
  metadata ← assertMap (index obj "metadata");
  name ← assertString (index metadata "name");
  namespace ← match index metadata "namespace" with
              | Some ns => assertString (Some ns)
              | None => Returns ""
              end;
  let kusionID :=
    if decide (namespace = "") then apiVersion +:+ ":" +:+ kind +:+ ":" +:+ name
    else apiVersion +:+ ":" +:+ kind +:+ ":" +:+ namespace +:+ ":" +:+ name in
  Returns {| ID := kusionID; Type_ := Kubernetes; Attributes := obj |}.

Fixpoint appendResources (objList : list object) (resources : list Resource)
    : outcome (list Resource) :=
  match objList with
  | [] => Returns resources
  | obj :: rest =>
      r ← toResource obj;
      appendResources rest (resources ++ [r])
  end.

Fixpoint convertFiles (objLists : list (list object)) (resources : list Resource)
    : outcome (list Resource) :=
  match objLists with
  | [] => Returns resources
  | objList :: rest =>
      resources ← appendResources objList resources;
      convertFiles rest resources
  end.

(** [range k.MergedPaths] and [range manifestYAMLFiles] under a schedule. *)
Definition rangePaths (s : Schedule) (k : K8sManifest) : list string :=
  pathOrder s (keys (default ∅ (MergedPaths k))).

Definition rangeFiles (s : Schedule) (manifestYAMLFiles : gmap string (list object))
    : list (list object) :=
  omap (λ filePath, manifestYAMLFiles !! filePath) (fileOrder s (keys manifestYAMLFiles)).

(** The function body, before the deferred function runs. *)
Definition GenerateBody (w : World) (s : Schedule) (k : K8sManifest)
    (request : GeneratorRequest)
    : K8sManifest * outcome (option GeneratorResponse * option error) :=
  match CompleteConfig k (DevConfig request) (PlatformConfig request) with
  | (k, Panics r) => (k, Panics r)
  | (k, Returns (Some err)) => (k, Returns (None, Some err))
  | (k, Returns None) =>
      match visitPaths w (rangePaths s k) ∅ with
      | (_, Some err) => (k, Returns (None, Some err))
      | (manifestYAMLFiles, None) =>
          match convertFiles (rangeFiles s manifestYAMLFiles) [] with
          | Panics r => (k, Panics r)
          | Returns resources =>
              (k, Returns (Some {| Resources := resources |}, None))
          end
      end
  end.

(** [Generate]: the body, then the deferred function, which turns a
    panic into [response = nil] and an error. *)
Definition Generate (w : World) (s : Schedule) (k : K8sManifest)
    (request : GeneratorRequest)
    : K8sManifest * (option GeneratorResponse * option error) :=
  match GenerateBody w s k request with
  | (k, Returns returned) => (k, returned)
  | (k, Panics r) =>
      (k, (None, Some (RecoveredPanic r (Stack w) (Marshal w request))))
  end.

(** ** Vocabulary of the properties *)

(** The identity of a manifest from its declared coordinates. *)
Definition manifestIdentity (apiVersion kind : string) (namespace : option string)
    (name : string) : string :=
  match namespace with
  | None | Some EmptyString => apiVersion +:+ ":" +:+ kind +:+ ":" +:+ name
  | Some ns => apiVersion +:+ ":" +:+ kind +:+ ":" +:+ ns +:+ ":" +:+ name
  end.

(** The document declares these coordinates, the namespace being
    absent ([None]) or a string. *)
Definition declared (obj : object) (apiVersion kind : string)
    (namespace : option string) (name : string) : Prop :=
  index obj "apiVersion" = Some (VString apiVersion) ∧
  index obj "kind" = Some (VString kind) ∧
  ∃ metadata,
    index obj "metadata" = Some (VMap metadata) ∧
    index metadata "name" = Some (VString name) ∧
    index metadata "namespace" = VString <$> namespace.

(** The resource that a document is emitted as. *)
Definition emitted (obj : object) (r : Resource) : Prop :=
  ∃ apiVersion kind namespace name,
    declared obj apiVersion kind namespace name ∧
    ID r = manifestIdentity apiVersion kind namespace name ∧
    Type_ r = Kubernetes ∧
    Attributes r = obj.

(** The paths a developer configuration puts into [k.Paths], those of
    a platform configuration. *)
Definition devPaths (k : K8sManifest) (devConfig : option Config) : list string :=
  match devConfig with
  | None => []
  | Some c => default (Paths k) (c_paths c)
  end.

Definition platformPaths (platformConfig : option Config) : list string :=
  match platformConfig with
  | None => []
  | Some c => default [] (c_paths c)
  end.

(** The merged map of an instance, empty when [nil]. *)
Definition mergedMap (k : K8sManifest) : gmap string bool :=
  default ∅ (MergedPaths k).

(** A configuration that is absent or decodes without an error. *)
Definition parses (config : option Config) : Prop :=
  match config with
  | None => True
  | Some c => c_error c = None
  end.

(** The merged map with every path of a list set. *)
Definition setAll (paths : list string) (mp : gmap string bool) : gmap string bool :=
  foldl (λ m path, <[path := true]> m) mp paths.

(** The instance after decoding the developer configuration. *)
Definition decoded (k : K8sManifest) (devConfig : option Config) : K8sManifest :=
  match devConfig with
  | None => k
  | Some c => (Unmarshal c k).1
  end.

(** The instance that a call of [CompleteConfig] which returns [nil]
    leaves behind. *)
Definition completed (k : K8sManifest) (devConfig platformConfig : option Config)
    : K8sManifest :=
  {| Paths := Paths (decoded k devConfig);
     MergedPaths :=
       setAll (devPaths k devConfig ++ platformPaths platformConfig)
         <$> MergedPaths (decoded k devConfig) |}.


(** A resource list made of the documents of [manifestYAMLFiles], file
    after file in the order [files], each file in document order. *)
Definition flattened (manifestYAMLFiles : gmap string (list object))
    (files : list string) (resources : list Resource) : Prop :=
  Forall2 (λ obj r, toResource obj = Returns r)
    (concat (omap (λ filePath, manifestYAMLFiles !! filePath) files)) resources.

(** The documents of a stream that [appendManifest] keeps, and a map
    with a run of documents appended under a file. *)
Definition nonEmpty (docs : list object) : list object :=
  filter (λ data, length data ≠ 0%nat) docs.

Definition addDocs (filePath : string) (docs : list object)
    (manifestYAMLFiles : gmap string (list object)) : gmap string (list object) :=
  match docs with
  | [] => manifestYAMLFiles
  | _ => <[filePath := default [] (manifestYAMLFiles !! filePath) ++ docs]> manifestYAMLFiles
  end.

(** The documents a file contributes when it opens and decodes to its
    end, and the map with them appended. *)
Definition read (w : World) (filePath : string) : option (list object) :=
  match Open w filePath with
  | Ok (docs, None) => Some (nonEmpty docs)
  | _ => None
  end.

Definition addFile (w : World) (manifestYAMLFiles : gmap string (list object))
    (filePath : string) : gmap string (list object) :=
  addDocs filePath (default [] (read w filePath)) manifestYAMLFiles.

(** The files read by a walk, a path and a list of paths, in the order
    they are read; [None] when one of the reads fails. *)
Fixpoint walked (w : World) (entries : list (string * option string))
    : option (list string) :=
  match entries with
  | [] => Some []
  | (_, Some _) :: _ => None
  | (filePath, None) :: rest =>
      if ignoreFile w filePath FileExtensions then walked w rest
      else if read w filePath is Some _ then (filePath ::.) <$> walked w rest
      else None
  end.

Definition visited (w : World) (path : string) : option (list string) :=
  match Stat w path with
  | Err _ => None
  | Ok true => walked w (WalkDir w path)
  | Ok false => if read w path is Some _ then Some [path] else None
  end.

Fixpoint visitedAll (w : World) (paths : list string) : option (list string) :=
  match paths with
  | [] => Some []
  | path :: rest =>
      files ← visited w path; more ← visitedAll w rest; Some (files ++ more)
  end.

(** The message with which a configuration fails to decode, if it
    does; none for an absent configuration. *)
Definition configError (config : option Config) : option string :=
  config ≫= c_error.

(** The instance once the developer paths are merged. *)
Definition developerMerged (k : K8sManifest) (devConfig : option Config) : K8sManifest :=
  {| Paths := Paths (decoded k devConfig);
     MergedPaths := setAll (devPaths k devConfig) <$> MergedPaths (decoded k devConfig) |}.

(** Every file of the map holds at least one document and no empty
    document. *)
Definition tidy (manifestYAMLFiles : gmap string (list object)) : Prop :=
  ∀ filePath docs,
    manifestYAMLFiles !! filePath = Some docs →
    docs ≠ [] ∧ Forall (λ data, data ≠ []) docs.

(** A string without a dot and without a path separator. *)
Definition plain (e : string) : Prop :=
  Forall (λ c, c ≠ "."%char ∧ c ≠ "/"%char) (String.list_ascii_of_string e).

(** The entries of a directory that a walk has to look at: those whose
    listing failed and those whose extension is recognised. *)
Definition looked (w : World) (entry : string * option string) : bool :=
  bool_decide (is_Some entry.2) || negb (ignoreFile w entry.1 FileExtensions).

(** ** A concrete world

    A directory [manifests] with a text file and a two-document YAML
    file, a JSON file next to it, a file whose document has no [kind],
    and a file holding the same document twice. *)

Definition lower (c : Ascii.ascii) : Ascii.ascii :=
  let n := Ascii.nat_of_ascii c in
  if (65 <=? n)%nat && (n <=? 90)%nat then Ascii.ascii_of_nat (n + 32) else c.

(** [strings.EqualFold] on ASCII text. *)
Fixpoint asciiEqualFold (s t : string) : bool :=
  match s, t with
  | EmptyString, EmptyString => true
  | String a s', String b t' => Ascii.eqb (lower a) (lower b) && asciiEqualFold s' t'
  | _, _ => false
  end.

Definition manifest (apiVersion kind : string) (metadata : object) : object :=
  [("apiVersion", VString apiVersion); ("kind", VString kind); ("metadata", VMap metadata)].

Definition deployment : object :=
  manifest "apps/v1" "Deployment" [("name", VString "web"); ("namespace", VString "default")].
Definition service : object :=
  manifest "v1" "Service" [("name", VString "web"); ("namespace", VString "default")].
Definition configMap : object :=
  manifest "v1" "ConfigMap" [("name", VString "settings")].
Definition noKind : object :=
  [("apiVersion", VString "v1"); ("metadata", VMap [("name", VString "orphan")])].

Definition cluster : World := {|
  Stat path :=
    if decide (path = "manifests") then Ok true
    else if decide (path ∈ ["manifests/web.yaml"; "extra/cm.json"; "broken.yaml"; "twice.yaml"])
    then Ok false
    else Err "no such file or directory";
  WalkDir path :=
    if decide (path = "manifests")
    then [("manifests", None); ("manifests/notes.txt", None); ("manifests/web.yaml", None)]
    else [(path, Some "not a directory")];
  Open path :=
    if decide (path = "manifests/web.yaml") then Ok ([deployment; []; service], None)
    else if decide (path = "extra/cm.json") then Ok ([configMap], None)
    else if decide (path = "broken.yaml") then Ok ([noKind], None)
    else if decide (path = "twice.yaml") then Ok ([configMap; configMap], None)
    else if decide (path = "manifests/notes.txt") then Ok ([], Some "cannot unmarshal string")
    else Err "no such file or directory";
  EqualFold := asciiEqualFold;
  Stack := "goroutine 1 [running]";
  Marshal request := "{}";
|}.

(** A world with one file, whose stream breaks after its first
    document. *)
Definition damaged : World := {|
  Stat path :=
    if decide (path = "bad.yaml") then Ok false else Err "no such file or directory";
  WalkDir path := [(path, Some "not a directory")];
  Open path :=
    if decide (path = "bad.yaml") then Ok ([configMap], Some "did not find expected key")
    else Err "no such file or directory";
  EqualFold := asciiEqualFold;
  Stack := "goroutine 1 [running]";
  Marshal request := "{}";
|}.

Definition inOrder : Schedule := {| pathOrder := id; fileOrder := id |}.
Definition backwards : Schedule := {| pathOrder := reverse; fileOrder := reverse |}.

(** A configuration that declares [paths] and nothing else. *)
Definition declares (paths : list string) : Config :=
  {| c_paths := Some paths; c_mergedPaths := None; c_error := None |}.


Definition developer (paths : list string) : GeneratorRequest :=
  {| DevConfig := Some (declares paths); PlatformConfig := None |}.

(** The resources of a response, none for [nil]. *)
Definition resourcesOf (response : option GeneratorResponse) : list Resource :=
  from_option Resources [] response.

End K8sManifest.
(** * Facts about the string functions *)

Module GoStringsFacts.
Import GoStrings.

Lemma HasPrefix_spec s prefix :
  HasPrefix s prefix = true ↔ ∃ rest, s = prefix +:+ rest.
Proof.
  revert s. induction prefix as [|p prefix IH]; intros s; simpl.
  - split; [intros _; exists s; reflexivity | done].
  - destruct s as [|c s]; simpl.
    + split; [done | intros [rest Hr]; discriminate].
    + rewrite andb_true_iff, IH. split.
      * intros [Hc [rest ->]]. apply Ascii.eqb_eq in Hc as ->. by exists rest.
      * intros [rest Hr]. injection Hr as -> ->.
        split; [apply Ascii.eqb_refl | by exists rest].
Qed.

Lemma Contains_spec s substr :
  Contains s substr = true ↔ ∃ before after, s = before +:+ substr +:+ after.
Proof.
  induction s as [|c s IH].
  - simpl. rewrite orb_false_r, HasPrefix_spec. split.
    + intros [rest Hr]. by exists "", rest.
    + intros [[|b before] [after Hs]]; [by exists after | discriminate].
  - change (Contains (String c s) substr)
      with (HasPrefix (String c s) substr || Contains s substr).
    rewrite orb_true_iff, HasPrefix_spec, IH. split.
    + intros [[rest Hr] | (before & after & ->)].
      * by exists "", rest.
      * by exists (String c before), after.
    + intros [[|b before] [after Hs]].
      * left. by exists after.
      * right. injection Hs as -> ->. by exists before, after.
Qed.


End GoStringsFacts.
(** * Properties of the Alicloud PostgreSQL generator *)

Module PostgresFacts.
Import Postgres.

Section Generator.
Context {collaborators : Collaborators}.

Lemma callee_Ok {A} (r : result string A) (a : A) :
  callee r = Ok a ↔ r = Ok a.
Proof. destruct r; simpl; split; congruence. Qed.


Lemma GenerateAlicloudResources_Ok getenv postgres request rs p :
  GenerateAlicloudResources getenv postgres request = Ok (rs, p) →
  Steps getenv postgres request rs p.
Proof.
  unfold GenerateAlicloudResources. case_decide as Hreg; [done|].
  unfold mbind, result_bind.
  destruct (callee (GenerateTFRandomPassword postgres request))
    as [[pw pwID]|] eqn:Hpw; simpl; [|done].
  apply callee_Ok in Hpw.
  destruct (generateAlicloudDBInstance _ _ _) as [[inst instID]|] eqn:Hinst;
    simpl; [|done].
  destruct (IsPublicAccessible (SecurityIPs postgres)) eqn:Hpub.
  - destruct (generateAlicloudDBConnection _ _ _ _) as [[conn connID]|] eqn:Hconn;
      simpl; [|done].
    destruct (generateAlicloudRDSAccount _ _ _ _ _ _) as [acct|] eqn:Hacct;
      simpl; [|done].
    destruct (callee (GenerateDBSecret _ _ _ _ _)) as [[secret p']|] eqn:Hsec;
      simpl; [|done].
    apply callee_Ok in Hsec. intros [= <- <-].
    apply (StepsDone _ _ _ pw pwID inst instID (Some (conn, connID)) acct secret);
      rewrite ?Hpub; eauto.
  - simpl.
    destruct (generateAlicloudRDSAccount _ _ _ _ _ _) as [acct|] eqn:Hacct;
      simpl; [|done].
    destruct (callee (GenerateDBSecret _ _ _ _ _)) as [[secret p']|] eqn:Hsec;
      simpl; [|done].
    apply callee_Ok in Hsec. intros [= <- <-].
    apply (StepsDone _ _ _ pw pwID inst instID None acct secret);
      rewrite ?Hpub; eauto.
Qed.

Lemma GenerateAlicloudResources_complete getenv postgres request rs p :
  Steps getenv postgres request rs p →
  GenerateAlicloudResources getenv postgres request = Ok (rs, p).
Proof.
  intros [pw pwID inst instID conn acct secret p' Hreg Hpw Hinst Hconn Hacct Hsec].
  unfold GenerateAlicloudResources. case_decide; [done|].
  unfold mbind, result_bind. rewrite Hpw; simpl. rewrite Hinst; simpl.
  destruct (IsPublicAccessible (SecurityIPs postgres)).
  - destruct Hconn as ([c cID] & -> & ->). simpl in *.
    rewrite Hacct; simpl. by rewrite Hsec.
  - subst conn. simpl in *. rewrite Hacct; simpl. by rewrite Hsec.
Qed.






Lemma generateAlicloudDBConnection_Ok postgres cfg region instID conn connID :
  generateAlicloudDBConnection postgres cfg region instID = Ok (conn, connID) ↔
  TerraformResourceID cfg alicloudDBConnection (DatabaseName postgres) = Ok connID ∧
  WrapTFResourceToKusionResource (withRegion cfg region) alicloudDBConnection
    connID (dbConnectionAttrs instID) [] = Ok conn.
Proof.
  unfold generateAlicloudDBConnection, mbind, result_bind.
  destruct (TerraformResourceID _ _ _) as [i|e]; simpl.
  - split.
    + destruct (WrapTFResourceToKusionResource _ _ _ _ _) eqn:Hw; simpl; [|done].
      by intros [= <- <-].
    + intros [[= ->] ->]. done.
  - split; [done | by intros [? _]].
Qed.

Lemma generateAlicloudDBInstance_Ok postgres cfg region inst instID :
  generateAlicloudDBInstance postgres cfg region = Ok (inst, instID) ↔
  TerraformResourceID cfg alicloudDBInstance (DatabaseName postgres) = Ok instID ∧
  WrapTFResourceToKusionResource (withRegion cfg region) alicloudDBInstance
    instID (dbInstanceAttrs postgres) [] = Ok inst.
Proof.
  unfold generateAlicloudDBInstance, mbind, result_bind.
  destruct (TerraformResourceID _ _ _) as [i|e]; simpl.
  - split.
    + destruct (WrapTFResourceToKusionResource _ _ _ _ _) eqn:Hw; simpl; [|done].
      by intros [= <- <-].
    + intros [[= ->] ->]. done.
  - split; [done | by intros [? _]].
Qed.

Lemma dbConnectionAttrs_lookup instID :
  dbConnectionAttrs instID !! "port" = Some (AInt 5432) ∧
  dbConnectionAttrs instID !! "instance_id"
    = Some (AString (KusionPathDependency instID "id")) ∧
  dom (dbConnectionAttrs instID) = {["instance_id"; "port"]}.
Proof.
  unfold dbConnectionAttrs. split_and!.
  - by rewrite lookup_insert_ne, lookup_insert_eq.
  - by rewrite lookup_insert_eq.
  - rewrite !dom_insert_L, dom_empty_L. set_solver.
Qed.

Lemma dbInstanceAttrs_serverless postgres :
  GoStrings.Contains (Category postgres) "serverless" = true →
  dbInstanceAttrs postgres !! "serverless_config"
    = Some (AServerless [fixedServerlessConfig]) ∧
  dbInstanceAttrs postgres !! "db_instance_storage_type" = Some (AString "cloud_essd") ∧
  dbInstanceAttrs postgres !! "instance_charge_type" = Some (AString "Serverless").
Proof.
  intros Hc. unfold dbInstanceAttrs. rewrite Hc. cbv zeta.
  split_and!; by simplify_map_eq.
Qed.

Lemma dbInstanceAttrs_not_serverless postgres :
  GoStrings.Contains (Category postgres) "serverless" = false →
  dbInstanceAttrs postgres !! "serverless_config" = None ∧
  dbInstanceAttrs postgres !! "db_instance_storage_type" = None ∧
  dbInstanceAttrs postgres !! "instance_charge_type" = None.
Proof.
  intros Hc. unfold dbInstanceAttrs. rewrite Hc. cbv zeta.
  split_and!; by simplify_map_eq.
Qed.


(** The host address is chosen by the private-routing flag alone. *)
Lemma hostAddressOf_cases postgres instID connID :
  hostAddressOf postgres instID connID =
    if PrivateRouting postgres
    then KusionPathDependency instID "connection_string"
    else KusionPathDependency connID "connection_string".
Proof. unfold hostAddressOf. by destruct (PrivateRouting postgres). Qed.

(** With private routing, or with a public connection built, the secret
    is assembled from the connection string of the resource in use. *)
Lemma GenerateAlicloudResources_host_address getenv postgres request rs p :
  GenerateAlicloudResources getenv postgres request = Ok (rs, p) →
  ∃ pw pwID inst instID conn acct secret,
    rs = [pw; inst] ++ from_option (λ c, [c.1]) [] conn ++ [acct; secret] ∧
    generateAlicloudDBInstance postgres defaultAlicloudProviderCfg
      (alicloudRegion getenv) = Ok (inst, instID) ∧
    (if IsPublicAccessible (SecurityIPs postgres)
     then ∃ c, conn = Some c ∧
          generateAlicloudDBConnection postgres defaultAlicloudProviderCfg
            (alicloudRegion getenv) instID = Ok c
     else conn = None) ∧
    GenerateDBSecret postgres request
      (if PrivateRouting postgres
       then KusionPathDependency instID "connection_string"
       else KusionPathDependency (from_option snd "" conn) "connection_string")
      (Username postgres) (KusionPathDependency pwID "result") = Ok (secret, p).
Proof.
  intros Hgen. apply GenerateAlicloudResources_Ok in Hgen.
  destruct Hgen as [pw pwID inst instID conn acct secret p Hreg Hpw Hinst Hconn Hacct Hsec].
  exists pw, pwID, inst, instID, conn, acct, secret.
  rewrite hostAddressOf_cases in Hsec. done.
Qed.

(** C1, on the configurations where it fails.  With private routing off
    and an allow-list that is not public, a successful generation emits
    four resources, none of them a public connection, and assembles the
    secret from a reference to the connection string of the empty
    resource id. *)
Theorem GenerateAlicloudResources_host_without_connection
    getenv postgres request rs p :
  PrivateRouting postgres = false →
  IsPublicAccessible (SecurityIPs postgres) = false →
  GenerateAlicloudResources getenv postgres request = Ok (rs, p) →
  ∃ pw pwID inst instID acct secret,
    rs = [pw; inst; acct; secret] ∧
    GenerateTFRandomPassword postgres request = Ok (pw, pwID) ∧
    generateAlicloudDBInstance postgres defaultAlicloudProviderCfg
      (alicloudRegion getenv) = Ok (inst, instID) ∧
    generateAlicloudRDSAccount postgres defaultAlicloudProviderCfg
      (alicloudRegion getenv) (Username postgres) pwID instID = Ok acct ∧
    GenerateDBSecret postgres request
      (KusionPathDependency "" "connection_string")
      (Username postgres) (KusionPathDependency pwID "result") = Ok (secret, p).
Proof.
  intros Hpriv Hpub Hgen. apply GenerateAlicloudResources_Ok in Hgen.
  destruct Hgen as [pw pwID inst instID conn acct secret p Hreg Hpw Hinst Hconn Hacct Hsec].
  rewrite Hpub in Hconn. subst conn.
  rewrite hostAddressOf_cases, Hpriv in Hsec. simpl in Hsec.
  by exists pw, pwID, inst, instID, acct, secret.
Qed.

(** C5.  In a successful generation the slot after the primary instance
    holds the resource built by [generateAlicloudDBConnection] exactly
    when the allow-list is publicly accessible (five resources then, four
    otherwise); that resource is wrapped as an alicloud_db_connection
    with port 5432 and [instance_id] a reference to the [id] of the
    primary instance. *)
Theorem GenerateAlicloudResources_public_connection
    getenv postgres request rs p :
  GenerateAlicloudResources getenv postgres request = Ok (rs, p) →
  ∃ inst instID,
    generateAlicloudDBInstance postgres defaultAlicloudProviderCfg
      (alicloudRegion getenv) = Ok (inst, instID) ∧
    rs !! 1%nat = Some inst ∧
    ((∃ conn connID,
        generateAlicloudDBConnection postgres defaultAlicloudProviderCfg
          (alicloudRegion getenv) instID = Ok (conn, connID) ∧
        rs !! 2%nat = Some conn ∧ length rs = 5%nat)
     ↔ IsPublicAccessible (SecurityIPs postgres) = true) ∧
    (IsPublicAccessible (SecurityIPs postgres) = false → length rs = 4%nat) ∧
    (∀ conn connID,
        generateAlicloudDBConnection postgres defaultAlicloudProviderCfg
          (alicloudRegion getenv) instID = Ok (conn, connID) →
        TerraformResourceID defaultAlicloudProviderCfg alicloudDBConnection
          (DatabaseName postgres) = Ok connID ∧
        WrapTFResourceToKusionResource
          (withRegion defaultAlicloudProviderCfg (alicloudRegion getenv))
          alicloudDBConnection connID (dbConnectionAttrs instID) [] = Ok conn ∧
        dbConnectionAttrs instID !! "port" = Some (AInt 5432) ∧
        dbConnectionAttrs instID !! "instance_id"
          = Some (AString (KusionPathDependency instID "id"))).
Proof.
  intros Hgen. apply GenerateAlicloudResources_Ok in Hgen.
  destruct Hgen as [pw pwID inst instID conn acct secret p Hreg Hpw Hinst Hconn Hacct Hsec].
  exists inst, instID. split_and!; [done | done | | | ].
  - destruct (IsPublicAccessible (SecurityIPs postgres)).
    + destruct Hconn as ([c cID] & -> & Hc). split; [done|]. intros _. by exists c, cID.
    + subst conn. split; [|done]. by intros (c & cID & _ & _ & ?).
  - intros Hpub. rewrite Hpub in Hconn. by subst conn.
  - intros c cID Hc. apply generateAlicloudDBConnection_Ok in Hc as [Hid Hw].
    destruct (dbConnectionAttrs_lookup instID) as (Hport & Hinstance & _).
    done.
Qed.


(** C7.  In a successful generation the primary instance is wrapped from
    attributes that carry the fixed serverless sub-configuration
    (auto_pause and switch_force off, capacity 1 to 8), storage type
    cloud_essd and charge type Serverless exactly when the category
    contains "serverless"; otherwise none of the three is set. *)
Theorem GenerateAlicloudResources_serverless getenv postgres request rs p :
  GenerateAlicloudResources getenv postgres request = Ok (rs, p) →
  ∃ inst instID,
    rs !! 1%nat = Some inst ∧
    WrapTFResourceToKusionResource
      (withRegion defaultAlicloudProviderCfg (alicloudRegion getenv))
      alicloudDBInstance instID (dbInstanceAttrs postgres) [] = Ok inst ∧
    (dbInstanceAttrs postgres !! "serverless_config"
       = Some (AServerless [{| AutoPause := false; SwitchForce := false;
                               MaxCapacity := 8; MinCapacity := 1 |}])
     ↔ GoStrings.Contains (Category postgres) "serverless" = true) ∧
    (GoStrings.Contains (Category postgres) "serverless" = true →
       dbInstanceAttrs postgres !! "db_instance_storage_type" = Some (AString "cloud_essd") ∧
       dbInstanceAttrs postgres !! "instance_charge_type" = Some (AString "Serverless")) ∧
    (GoStrings.Contains (Category postgres) "serverless" = false →
       dbInstanceAttrs postgres !! "serverless_config" = None ∧
       dbInstanceAttrs postgres !! "db_instance_storage_type" = None ∧
       dbInstanceAttrs postgres !! "instance_charge_type" = None).
Proof.
  intros Hgen. apply GenerateAlicloudResources_Ok in Hgen.
  destruct Hgen as [pw pwID inst instID conn acct secret p Hreg Hpw Hinst Hconn Hacct Hsec].
  apply generateAlicloudDBInstance_Ok in Hinst as [Hid Hw].
  exists inst, instID. split_and!; [done | done | | | ].
  - destruct (GoStrings.Contains (Category postgres) "serverless") eqn:Hc.
    + by destruct (dbInstanceAttrs_serverless postgres Hc) as (-> & _).
    + by destruct (dbInstanceAttrs_not_serverless postgres Hc) as (-> & _).
  - intros Hc. by destruct (dbInstanceAttrs_serverless postgres Hc) as (_ & -> & ->).
  - apply dbInstanceAttrs_not_serverless.
Qed.

End Generator.

(** ** Runs of the generator *)

Example serverlessDB_run :
  summaries (GenerateAlicloudResources (collaborators := sample) hangzhouEnv serverlessDB "shop")
  = [("hashicorp:random:random_password:orders-db", Some "random_password", None);
     ("aliyun/alicloud:alicloud_db_instance:orders", Some "alicloud_db_instance", None);
     ("aliyun/alicloud:alicloud_db_connection:orders", Some "alicloud_db_connection", None);
     ("aliyun/alicloud:alicloud_rds_account:orders", Some "alicloud_rds_account", None);
     ("v1:Secret:shop:orders-postgres", None,
      Some (AString "$kusion_path.aliyun/alicloud:alicloud_db_connection:orders.connection_string"))].
Proof. vm_compute. reflexivity. Qed.

Example privateDB_run :
  summaries (GenerateAlicloudResources (collaborators := sample) hangzhouEnv privateDB "shop")
  = [("hashicorp:random:random_password:orders-db", Some "random_password", None);
     ("aliyun/alicloud:alicloud_db_instance:orders", Some "alicloud_db_instance", None);
     ("aliyun/alicloud:alicloud_rds_account:orders", Some "alicloud_rds_account", None);
     ("v1:Secret:shop:orders-postgres", None,
      Some (AString "$kusion_path.aliyun/alicloud:alicloud_db_instance:orders.connection_string"))].
Proof. vm_compute. reflexivity. Qed.

Example closedDB_run :
  summaries (GenerateAlicloudResources (collaborators := sample) hangzhouEnv closedDB "shop")
  = [("hashicorp:random:random_password:orders-db", Some "random_password", None);
     ("aliyun/alicloud:alicloud_db_instance:orders", Some "alicloud_db_instance", None);
     ("aliyun/alicloud:alicloud_rds_account:orders", Some "alicloud_rds_account", None);
     ("v1:Secret:shop:orders-postgres", None,
      Some (AString "$kusion_path..connection_string"))].
Proof. vm_compute. reflexivity. Qed.

Example no_region_run :
  GenerateAlicloudResources (collaborators := sample) emptyEnv serverlessDB "shop"
    = Err ErrEmptyAlicloudProviderRegion.
Proof. reflexivity. Qed.

(** ** The theorems at concrete configurations *)

Lemma GenerateAlicloudResources_host_without_connection_witness :
  ∃ rs p secret,
    GenerateAlicloudResources (collaborators := sample) hangzhouEnv closedDB "shop"
      = Ok (rs, p) ∧
    length rs = 4%nat ∧ last rs = Some secret ∧
    Attributes secret !! "hostAddress"
      = Some (AString (samplePathDependency "" "connection_string")).
Proof.
  pose (run := GenerateAlicloudResources (collaborators := sample) hangzhouEnv closedDB "shop").
  assert (∃ rs p, run = Ok (rs, p)) as (rs & p & Hrun) by (vm_compute; eauto).
  destruct (GenerateAlicloudResources_host_without_connection
              (collaborators := sample) hangzhouEnv closedDB "shop" rs p
              eq_refl eq_refl Hrun)
    as (pw & pwID & inst & instID & acct & secret & -> & _ & _ & _ & Hsec).
  exists [pw; inst; acct; secret], p, secret. split_and!; [exact Hrun | done | done |].
  injection Hsec as <- _. reflexivity.
Defined.

Lemma GenerateAlicloudResources_public_connection_witness :
  ∃ rs p conn,
    GenerateAlicloudResources (collaborators := sample) hangzhouEnv serverlessDB "shop"
      = Ok (rs, p) ∧
    length rs = 5%nat ∧ rs !! 2%nat = Some conn ∧
    Attributes conn !! "port" = Some (AInt 5432).
Proof.
  pose (run := GenerateAlicloudResources (collaborators := sample) hangzhouEnv serverlessDB "shop").
  assert (∃ rs p, run = Ok (rs, p)) as (rs & p & Hrun) by (vm_compute; eauto).
  destruct (GenerateAlicloudResources_public_connection
              (collaborators := sample) hangzhouEnv serverlessDB "shop" rs p Hrun)
    as (inst & instID & _ & _ & Hiff & _ & Hattrs).
  destruct (proj2 Hiff eq_refl) as (conn & connID & Hconn & Hslot & Hlen).
  destruct (Hattrs conn connID Hconn) as (_ & Hw & Hport & _).
  exists rs, p, conn. split_and!; [exact Hrun | done | done |].
  injection Hw as <-. exact Hport.
Defined.


Lemma GenerateAlicloudResources_serverless_witness :
  ∃ rs p inst,
    GenerateAlicloudResources (collaborators := sample) hangzhouEnv serverlessDB "shop"
      = Ok (rs, p) ∧
    rs !! 1%nat = Some inst ∧
    Attributes inst !! "serverless_config"
      = Some (AServerless [{| AutoPause := false; SwitchForce := false;
                              MaxCapacity := 8; MinCapacity := 1 |}]).
Proof.
  pose (run := GenerateAlicloudResources (collaborators := sample) hangzhouEnv serverlessDB "shop").
  assert (∃ rs p, run = Ok (rs, p)) as (rs & p & Hrun) by (vm_compute; eauto).
  destruct (GenerateAlicloudResources_serverless
              (collaborators := sample) hangzhouEnv serverlessDB "shop" rs p Hrun)
    as (inst & instID & Hslot & Hw & Hiff & _).
  exists rs, p, inst. split_and!; [exact Hrun | done |].
  injection Hw as <-. apply Hiff. reflexivity.
Defined.

End PostgresFacts.

(** * More about the Alicloud PostgreSQL generator *)

Module PostgresMore.
Import Postgres PostgresFacts.

Section Generator.
Context {collaborators : Collaborators}.

Lemma generateAlicloudRDSAccount_Ok postgres cfg region accountName pwID instID acct :
  generateAlicloudRDSAccount postgres cfg region accountName pwID instID = Ok acct ↔
  ∃ id,
    TerraformResourceID cfg alicloudRDSAccount (DatabaseName postgres) = Ok id ∧
    WrapTFResourceToKusionResource (withRegion cfg region) alicloudRDSAccount
      id (rdsAccountAttrs accountName pwID instID) [] = Ok acct.
Proof.
  unfold generateAlicloudRDSAccount, mbind, result_bind.
  destruct (TerraformResourceID _ _ _) as [i|e]; simpl.
  - rewrite callee_Ok. split; [by exists i | by intros (? & [= <-] & ?)].
  - split; [done | by intros (? & ? & _)].
Qed.

(** X1.  Generation succeeds exactly when the region resolves and
    every step succeeds: the password, the instance, the connection
    when the allow-list is public, the account and the secret, each fed
    with the ids of the steps before it; the resources are returned in
    that order and the patcher is the one of the secret. *)
Theorem GenerateAlicloudResources_succeeds getenv postgres request rs p :
  GenerateAlicloudResources getenv postgres request = Ok (rs, p) ↔
  alicloudRegion getenv ≠ "" ∧
  ∃ pw pwID inst instID (conn : option (Resource * string)) acct secret,
    GenerateTFRandomPassword postgres request = Ok (pw, pwID) ∧
    generateAlicloudDBInstance postgres defaultAlicloudProviderCfg
      (alicloudRegion getenv) = Ok (inst, instID) ∧
    (if IsPublicAccessible (SecurityIPs postgres)
     then ∃ c, conn = Some c ∧
          generateAlicloudDBConnection postgres defaultAlicloudProviderCfg
            (alicloudRegion getenv) instID = Ok c
     else conn = None) ∧
    generateAlicloudRDSAccount postgres defaultAlicloudProviderCfg
      (alicloudRegion getenv) (Username postgres) pwID instID = Ok acct ∧
    GenerateDBSecret postgres request
      (hostAddressOf postgres instID (from_option snd "" conn))
      (Username postgres) (KusionPathDependency pwID "result") = Ok (secret, p) ∧
    rs = [pw; inst] ++ from_option (λ c, [c.1]) [] conn ++ [acct; secret].
Proof.
  split.
  - intros Hgen. apply GenerateAlicloudResources_Ok in Hgen.
    destruct Hgen as [pw pwID inst instID conn acct secret p Hreg Hpw Hinst Hconn Hacct Hsec].
    split; [done|]. by exists pw, pwID, inst, instID, conn, acct, secret.
  - intros (Hreg & pw & pwID & inst & instID & conn & acct & secret
            & Hpw & Hinst & Hconn & Hacct & Hsec & ->).
    apply GenerateAlicloudResources_complete. by econstructor.
Qed.

(** X2.  In a successful generation the resource before the secret is
    the account: it is wrapped as an alicloud_rds_account, under the
    provider configuration with the resolved region, from exactly four
    attributes: the configured user name, a reference to the result of
    the password, the type Super and a reference to the id of the
    instance; the secret is assembled with the same password
    reference. *)
Theorem GenerateAlicloudResources_account getenv postgres request rs p :
  GenerateAlicloudResources getenv postgres request = Ok (rs, p) →
  ∃ front pw pwID inst instID acct acctID secret hostAddress,
    rs = front ++ [acct; secret] ∧
    GenerateTFRandomPassword postgres request = Ok (pw, pwID) ∧
    generateAlicloudDBInstance postgres defaultAlicloudProviderCfg
      (alicloudRegion getenv) = Ok (inst, instID) ∧
    TerraformResourceID defaultAlicloudProviderCfg alicloudRDSAccount
      (DatabaseName postgres) = Ok acctID ∧
    WrapTFResourceToKusionResource
      (withRegion defaultAlicloudProviderCfg (alicloudRegion getenv))
      alicloudRDSAccount acctID
      (rdsAccountAttrs (Username postgres) pwID instID) [] = Ok acct ∧
    rdsAccountAttrs (Username postgres) pwID instID
    = {[ "account_name" := AString (Username postgres);
         "account_password" := AString (KusionPathDependency pwID "result");
         "account_type" := AString "Super";
         "db_instance_id" := AString (KusionPathDependency instID "id") ]} ∧
    GenerateDBSecret postgres request hostAddress (Username postgres)
      (KusionPathDependency pwID "result") = Ok (secret, p).
Proof.
  intros Hgen. apply GenerateAlicloudResources_Ok in Hgen.
  destruct Hgen as [pw pwID inst instID conn acct secret p Hreg Hpw Hinst Hconn Hacct Hsec].
  apply generateAlicloudRDSAccount_Ok in Hacct as (acctID & Hid & Hw).
  exists ([pw; inst] ++ from_option (λ c, [c.1]) [] conn), pw, pwID, inst, instID,
    acct, acctID, secret, (hostAddressOf postgres instID (from_option snd "" conn)).
  split_and!; try done; by rewrite <- !app_assoc.
Qed.

(** X3.  The attributes of the instance always carry the eight values
    taken from the configuration, whatever the category; a serverless
    category adds three keys and changes none of the eight. *)
Theorem dbInstanceAttrs_base postgres :
  dbInstanceAttrs postgres !! "category" = Some (AString (Category postgres)) ∧
  dbInstanceAttrs postgres !! "engine" = Some (AString "PostgreSQL") ∧
  dbInstanceAttrs postgres !! "engine_version" = Some (AString (Version postgres)) ∧
  dbInstanceAttrs postgres !! "instance_storage" = Some (AInt (Size postgres)) ∧
  dbInstanceAttrs postgres !! "instance_type" = Some (AString (InstanceType postgres)) ∧
  dbInstanceAttrs postgres !! "security_ips" = Some (AStrings (SecurityIPs postgres)) ∧
  dbInstanceAttrs postgres !! "vswitch_id" = Some (AString (SubnetID postgres)) ∧
  dbInstanceAttrs postgres !! "instance_name" = Some (AString (DatabaseName postgres)) ∧
  size (dbInstanceAttrs postgres)
  = (if GoStrings.Contains (Category postgres) "serverless" then 11 else 8)%nat.
Proof.
  unfold dbInstanceAttrs.
  destruct (GoStrings.Contains (Category postgres) "serverless"); cbv zeta.
  - split_and!; by simplify_map_eq.
  - split_and!; by simplify_map_eq.
Qed.

(** X4.  The ids of the instance, the connection and the account are
    those of the provider configuration as it is given, before the
    region is put into it: a builder that succeeds for two regions
    returns the same id for both. *)
Theorem resource_ids_without_region postgres cfg region1 region2 instID :
  (∀ r1 id1 r2 id2,
     generateAlicloudDBInstance postgres cfg region1 = Ok (r1, id1) →
     generateAlicloudDBInstance postgres cfg region2 = Ok (r2, id2) →
     id1 = id2 ∧ TerraformResourceID cfg alicloudDBInstance (DatabaseName postgres) = Ok id1) ∧
  (∀ r1 id1 r2 id2,
     generateAlicloudDBConnection postgres cfg region1 instID = Ok (r1, id1) →
     generateAlicloudDBConnection postgres cfg region2 instID = Ok (r2, id2) →
     id1 = id2 ∧ TerraformResourceID cfg alicloudDBConnection (DatabaseName postgres) = Ok id1).
Proof.
  split; intros r1 id1 r2 id2.
  - intros [H1 _]%generateAlicloudDBInstance_Ok [H2 _]%generateAlicloudDBInstance_Ok.
    split; [congruence | done].
  - intros [H1 _]%generateAlicloudDBConnection_Ok [H2 _]%generateAlicloudDBConnection_Ok.
    split; [congruence | done].
Qed.

(** X5.  With a region, the error of the first step that fails is the
    error of the generation, as the callee gave it: the password before
    the instance, the instance before the connection and the account. *)
Theorem GenerateAlicloudResources_first_error getenv postgres request :
  alicloudRegion getenv ≠ "" →
  (∀ msg,
     GenerateTFRandomPassword postgres request = Err msg →
     GenerateAlicloudResources getenv postgres request = Err (CalleeError msg)) ∧
  (∀ pw pwID msg,
     GenerateTFRandomPassword postgres request = Ok (pw, pwID) →
     TerraformResourceID defaultAlicloudProviderCfg alicloudDBInstance
       (DatabaseName postgres) = Err msg →
     GenerateAlicloudResources getenv postgres request = Err (CalleeError msg)) ∧
  (∀ pw pwID inst instID msg,
     GenerateTFRandomPassword postgres request = Ok (pw, pwID) →
     generateAlicloudDBInstance postgres defaultAlicloudProviderCfg
       (alicloudRegion getenv) = Ok (inst, instID) →
     IsPublicAccessible (SecurityIPs postgres) = false →
     TerraformResourceID defaultAlicloudProviderCfg alicloudRDSAccount
       (DatabaseName postgres) = Err msg →
     GenerateAlicloudResources getenv postgres request = Err (CalleeError msg)).
Proof.
  intros Hreg. unfold GenerateAlicloudResources. rewrite decide_False by done.
  unfold mbind, result_bind. split_and!.
  - intros msg ->. done.
  - intros pw pwID msg -> Hid. simpl.
    unfold generateAlicloudDBInstance, mbind, result_bind. by rewrite Hid.
  - intros pw pwID inst instID msg -> -> -> Hid. simpl.
    unfold generateAlicloudRDSAccount, mbind, result_bind. by rewrite Hid.
Qed.

End Generator.

(** ** The theorems at concrete configurations *)

Lemma GenerateAlicloudResources_account_witness :
  ∃ rs p front acct secret,
    GenerateAlicloudResources (collaborators := sample) hangzhouEnv privateDB "shop"
      = Ok (rs, p) ∧
    rs = front ++ [acct; secret] ∧
    Attributes acct !! "account_type" = Some (AString "Super").
Proof.
  destruct (GenerateAlicloudResources (collaborators := sample) hangzhouEnv privateDB "shop")
    as [[rs p]|e] eqn:Hrun; [|exfalso; vm_compute in Hrun; discriminate Hrun].
  destruct (GenerateAlicloudResources_account
              (collaborators := sample) hangzhouEnv privateDB "shop" rs p Hrun)
    as (front & pw & pwID & inst & instID & acct & acctID & secret & host
        & Hrs & _ & _ & _ & Hw & Hattrs & _).
  exists rs, p, front, acct, secret. split_and!; [reflexivity | exact Hrs |].
  injection Hw as <-. cbn [Attributes]. unfold rdsAccountAttrs.
  rewrite !lookup_insert_ne by discriminate. apply lookup_insert_eq.
Defined.

Lemma resource_ids_without_region_witness :
  ∃ r1 r2 id,
    generateAlicloudDBInstance (collaborators := sample) serverlessDB
      defaultAlicloudProviderCfg "cn-hangzhou" = Ok (r1, id) ∧
    generateAlicloudDBInstance (collaborators := sample) serverlessDB
      defaultAlicloudProviderCfg "cn-beijing" = Ok (r2, id).
Proof.
  destruct (generateAlicloudDBInstance (collaborators := sample) serverlessDB
              defaultAlicloudProviderCfg "cn-hangzhou") as [[r1 id1]|e] eqn:H1;
    [|exfalso; vm_compute in H1; discriminate H1].
  destruct (generateAlicloudDBInstance (collaborators := sample) serverlessDB
              defaultAlicloudProviderCfg "cn-beijing") as [[r2 id2]|e] eqn:H2;
    [|exfalso; vm_compute in H2; discriminate H2].
  destruct (proj1 (resource_ids_without_region (collaborators := sample) serverlessDB
                     defaultAlicloudProviderCfg "cn-hangzhou" "cn-beijing" "")
              r1 id1 r2 id2 H1 H2) as [<- _].
  by exists r1, r2, id1.
Defined.

Lemma GenerateAlicloudResources_first_error_witness :
  GenerateAlicloudResources (collaborators := withoutPassword) hangzhouEnv serverlessDB "shop"
  = Err (CalleeError "random provider is not configured").
Proof.
  apply (GenerateAlicloudResources_first_error (collaborators := withoutPassword)
           hangzhouEnv serverlessDB "shop").
  - discriminate.
  - reflexivity.
Defined.

End PostgresMore.

(** * Properties of the k8s_manifest generator *)

Module K8sManifestFacts.
Import K8sManifest.

(** ** Documents to resources *)

Lemma assertString_Returns v s : assertString v = Returns s ↔ v = Some (VString s).
Proof. destruct v as [[]|]; cbn; split; intros; by simplify_eq. Qed.

Lemma assertMap_Returns v m : assertMap v = Returns m ↔ v = Some (VMap m).
Proof. destruct v as [[]|]; cbn; split; intros; by simplify_eq. Qed.

Lemma manifestIdentity_cases apiVersion kind namespace name :
  manifestIdentity apiVersion kind namespace name =
    if decide (default "" namespace = "")
    then apiVersion +:+ ":" +:+ kind +:+ ":" +:+ name
    else apiVersion +:+ ":" +:+ kind +:+ ":" +:+ default "" namespace +:+ ":" +:+ name.
Proof. by destruct namespace as [[|c ns]|]. Qed.

Lemma toResource_emitted obj r : toResource obj = Returns r → emitted obj r.
Proof.
  unfold toResource, mbind, outcome_bind.
  destruct (assertString (index obj "apiVersion")) as [apiVersion|] eqn:Ha; [|done].
  destruct (assertString (index obj "kind")) as [kind|] eqn:Hk; [|done].
  destruct (assertMap (index obj "metadata")) as [metadata|] eqn:Hm; [|done].
  destruct (assertString (index metadata "name")) as [name|] eqn:Hn; [|done].
  apply assertString_Returns in Ha, Hk, Hn. apply assertMap_Returns in Hm.
  destruct (index metadata "namespace") as [ns|] eqn:Hns.
  - destruct (assertString (Some ns)) as [namespace|] eqn:Hs; [|done].
    apply assertString_Returns in Hs as [= ->]. intros [= <-].
    exists apiVersion, kind, (Some namespace), name.
    split_and!; [by repeat (split || eexists) | | done | done].
    by rewrite manifestIdentity_cases.
  - intros [= <-]. exists apiVersion, kind, None, name.
    split_and!; [by repeat (split || eexists) | done | done | done].
Qed.

Lemma emitted_toResource obj r : emitted obj r → toResource obj = Returns r.
Proof.
  intros (apiVersion & kind & namespace & name & Hd & Hid & Hty & Hattrs).
  destruct Hd as (Ha & Hk & metadata & Hm & Hn & Hns).
  unfold toResource, mbind, outcome_bind.
  rewrite Ha; cbn. rewrite Hk; cbn. rewrite Hm; cbn. rewrite Hn; cbn. rewrite Hns.
  destruct r as [rid rty rattrs]. simpl in *. subst rid rty rattrs.
  rewrite manifestIdentity_cases. by destruct namespace.
Qed.

Lemma converted_unique (objs : list object) (rs1 rs2 : list Resource) :
  Forall2 (λ obj r, toResource obj = Returns r) objs rs1 →
  Forall2 (λ obj r, toResource obj = Returns r) objs rs2 →
  rs1 = rs2.
Proof.
  intros H1. revert rs2. induction H1 as [|o r os rs Hr _ IH]; intros rs2 H2.
  - by apply Forall2_nil_inv_l in H2.
  - apply Forall2_cons_inv_l in H2 as (r' & rs' & Hr' & Hrs' & ->).
    f_equal; [congruence | by apply IH].
Qed.

Lemma appendResources_Returns objList resources out :
  appendResources objList resources = Returns out ↔
  ∃ new, out = resources ++ new ∧
         Forall2 (λ obj r, toResource obj = Returns r) objList new.
Proof.
  revert resources. induction objList as [|obj rest IH]; intros resources; simpl.
  - split.
    + intros [= <-]. exists []. by rewrite app_nil_r.
    + intros (new & -> & Hnew). apply Forall2_nil_inv_l in Hnew as ->.
      by rewrite app_nil_r.
  - unfold mbind, outcome_bind. destruct (toResource obj) as [r|p] eqn:Hobj.
    + rewrite IH. split.
      * intros (new & -> & Hnew). exists (r :: new).
        split; [by rewrite <- app_assoc | by constructor].
      * intros (new & -> & Hnew).
        apply Forall2_cons_inv_l in Hnew as (r' & new' & Hr & Hnew & ->).
        assert (r' = r) as -> by congruence.
        exists new'. split; [by rewrite <- app_assoc | done].
    + split; [done|]. intros (new & _ & Hnew).
      apply Forall2_cons_inv_l in Hnew as (r' & new' & Hr & _). congruence.
Qed.

Lemma convertFiles_Returns objLists resources out :
  convertFiles objLists resources = Returns out ↔
  ∃ new, out = resources ++ new ∧
         Forall2 (λ obj r, toResource obj = Returns r) (concat objLists) new.
Proof.
  revert resources. induction objLists as [|objList rest IH]; intros resources; simpl.
  - split.
    + intros [= <-]. exists []. by rewrite app_nil_r.
    + intros (new & -> & Hnew). apply Forall2_nil_inv_l in Hnew as ->.
      by rewrite app_nil_r.
  - unfold mbind, outcome_bind.
    destruct (appendResources objList resources) as [mid|p] eqn:Hmid.
    + apply appendResources_Returns in Hmid as (new1 & -> & Hnew1).
      rewrite IH. split.
      * intros (new2 & -> & Hnew2). exists (new1 ++ new2).
        split; [by rewrite app_assoc | by apply Forall2_app].
      * intros (new & -> & Hnew).
        apply Forall2_app_inv_l in Hnew as (n1 & n2 & Hn1 & Hn2 & ->).
        assert (n1 = new1) as -> by (by eapply converted_unique).
        exists n2. split; [by rewrite app_assoc | done].
    + split; [done|]. intros (new & _ & Hnew).
      apply Forall2_app_inv_l in Hnew as (n1 & n2 & Hn1 & _ & _).
      assert (appendResources objList resources = Returns (resources ++ n1)) as Hok
        by (apply appendResources_Returns; eauto).
      congruence.
Qed.

(** ** What [Generate] returns *)

Lemma GenerateBody_success w s k request k' response :
  GenerateBody w s k request = (k', Returns (Some response, None)) ↔
  ∃ manifestYAMLFiles,
    CompleteConfig k (DevConfig request) (PlatformConfig request) = (k', Returns None) ∧
    visitPaths w (rangePaths s k') ∅ = (manifestYAMLFiles, None) ∧
    flattened manifestYAMLFiles (fileOrder s (keys manifestYAMLFiles)) (Resources response).
Proof.
  unfold GenerateBody, flattened.
  destruct (CompleteConfig k _ _) as [k1 [[err|]|r]];
    [split; [done | by intros (? & [=] & _)] | | split; [done | by intros (? & [=] & _)]].
  destruct (visitPaths w (rangePaths s k1) ∅) as [m [err|]] eqn:Hvisit.
  { split; [done|]. intros (m' & [= <-] & Hm' & _). congruence. }
  fold (rangeFiles s m).
  destruct (convertFiles (rangeFiles s m) []) as [resources|r] eqn:Hconv.
  - apply convertFiles_Returns in Hconv as (new & -> & Hnew). simpl. split.
    + intros [= <- <-]. by exists m.
    + intros (m' & [= <-] & Hm' & Hres). rewrite Hvisit in Hm'. injection Hm' as <-.
      destruct response as [rs]. simpl in *.
      by rewrite (converted_unique _ _ _ Hnew Hres).
  - split; [done|]. intros (m' & [= <-] & Hm' & Hres).
    rewrite Hvisit in Hm'. injection Hm' as <-.
    assert (convertFiles (rangeFiles s m) [] = Returns ([] ++ Resources response))
      as Hok by (apply convertFiles_Returns; eauto).
    congruence.
Qed.

Lemma Generate_success w s k request k' response :
  Generate w s k request = (k', (Some response, None)) ↔
  GenerateBody w s k request = (k', Returns (Some response, None)).
Proof.
  unfold Generate. destruct (GenerateBody w s k request) as [k1 [returned|r]].
  - split; intros; by simplify_eq.
  - split; intros; by simplify_eq.
Qed.

(** Every [return] of the body pairs an error with a [nil] response, and
    none of them returns the error of [ValidateConfig]. *)
Lemma GenerateBody_returns w s k request k' response err :
  GenerateBody w s k request = (k', Returns (response, Some err)) →
  response = None ∧ err ≠ ErrEmptyPaths.
Proof.
  unfold GenerateBody.
  destruct (CompleteConfig k _ _) as [k1 [[e|]|r]] eqn:Hcc; [ | | done].
  - intros [= <- <- <-]. split; [done|].
    revert Hcc. unfold CompleteConfig, completeDev, completePlatform, Unmarshal.
    destruct (DevConfig request) as [dev|].
    + destruct (c_error dev) as [msg|]; simpl; [by intros [= _ <-]|].
      destruct (mergeDevPaths _ _) as [k2 [[]|r]]; [|done].
      destruct (PlatformConfig request) as [plat|]; [|done].
      destruct (c_error plat) as [msg|]; simpl; [by intros [= _ <-]|].
      by destruct (mergePlatformPaths _ _) as [k3 [[]|r]].
    + destruct (PlatformConfig request) as [plat|]; [|done].
      destruct (c_error plat) as [msg|]; simpl; [by intros [= _ <-]|].
      by destruct (mergePlatformPaths _ _) as [k3 [[]|r]].
  - destruct (visitPaths w (rangePaths s k1) ∅) as [m [e|]] eqn:Hvisit.
    + intros [= <- <- <-]. split; [done|].
      assert (∀ paths m0 m1, visitPaths w paths m0 = (m1, Some ErrEmptyPaths) → False)
        as Hno; [|intros ->; by eapply Hno].
      clear. intros paths. induction paths as [|path rest IH]; intros m0 m1; [done|].
      simpl. destruct (visitPath w path m0) as [m2 [e|]] eqn:Hpath; [|by eapply IH].
      intros [= <- ->]. revert Hpath. unfold visitPath.
      assert (∀ f m3 m4, appendManifest w f m3 = (m4, Some ErrEmptyPaths) → False) as Happ.
      { intros f m3 m4. unfold appendManifest.
        destruct (Open w f) as [[docs [e|]]|e]; by intros [= _]. }
      destruct (Stat w path) as [[]|e]; [ | by eapply Happ | done].
      generalize (WalkDir w path). intros entries. revert m0.
      induction entries as [|[f [e|]] entries IHe]; intros m0; simpl; [done | done |].
      destruct (ignoreFile w f FileExtensions); [by apply IHe|].
      destruct (appendManifest w f m0) as [m3 [e|]] eqn:Hf; [|by apply IHe].
      intros [= <- ->]. by eapply Happ.
    + by destruct (convertFiles _ _).
Qed.

Lemma declared_unique obj a1 k1 ns1 n1 a2 k2 ns2 n2 :
  declared obj a1 k1 ns1 n1 → declared obj a2 k2 ns2 n2 →
  a1 = a2 ∧ k1 = k2 ∧ ns1 = ns2 ∧ n1 = n2.
Proof.
  intros (Ha1 & Hk1 & m1 & Hm1 & Hn1 & Hns1) (Ha2 & Hk2 & m2 & Hm2 & Hn2 & Hns2).
  rewrite Ha1 in Ha2. rewrite Hk1 in Hk2. rewrite Hm1 in Hm2.
  injection Ha2 as <-. injection Hk2 as <-. injection Hm2 as <-.
  rewrite Hn1 in Hn2. injection Hn2 as <-. rewrite Hns1 in Hns2.
  split_and!; try done.
  destruct ns1, ns2; simpl in *; by simplify_eq.
Qed.

Lemma fair_inOrder : fair inOrder.
Proof. by split. Qed.

Lemma fair_backwards : fair backwards.
Proof. split; intros l; apply reverse_Permutation. Qed.

Lemma keys_empty {V} : keys (∅ : gmap string V) = [].
Proof. unfold keys. by rewrite map_to_list_empty. Qed.


Lemma ValidateConfig_error k :
  ValidateConfig k = Some ErrEmptyPaths ↔ keys (default ∅ (MergedPaths k)) = [].
Proof.
  unfold ValidateConfig. case_bool_decide as Hlen.
  - split; [|done]. intros _. by apply nil_length_inv.
  - split; [done|]. intros Hk. by rewrite Hk in Hlen.
Qed.


(** ** Merging the configurations *)

Lemma setAll_lookup paths mp path :
  setAll paths mp !! path = if decide (path ∈ paths) then Some true else mp !! path.
Proof.
  unfold setAll. revert mp. induction paths as [|p paths IH]; intros mp.
  - case_decide as Hin; [by apply elem_of_nil in Hin | done].
  - change (foldl _ mp (p :: paths))
      with (foldl (λ m path0, <[path0 := true]> m) (<[p := true]> mp) paths).
    rewrite IH.
    destruct (decide (path ∈ paths)) as [Hin|Hnin],
             (decide (path ∈ p :: paths)) as [Hin'|Hnin']; try done.
    + exfalso. apply Hnin'. by right.
    + apply elem_of_cons in Hin' as [->|?]; [|done]. by rewrite lookup_insert_eq.
    + rewrite lookup_insert_ne; [done|]. intros ->. apply Hnin'. by left.
Qed.

Lemma setAll_app paths1 paths2 mp :
  setAll (paths1 ++ paths2) mp = setAll paths2 (setAll paths1 mp).
Proof. unfold setAll. by rewrite foldl_app. Qed.

Lemma mergeDevPaths_nil_map path paths k :
  MergedPaths k = None → mergeDevPaths (path :: paths) k = (k, Panics NilMapAssignment).
Proof. intros Hnil. simpl. unfold setMerged. by rewrite Hnil. Qed.

Lemma mergeDevPaths_map paths k mp :
  MergedPaths k = Some mp →
  mergeDevPaths paths k
  = ({| Paths := Paths k; MergedPaths := Some (setAll paths mp) |}, Returns ()).
Proof.
  revert k mp. induction paths as [|path paths IH]; intros k mp Hmp; simpl.
  - destruct k as [ps m]. simpl in *. by subst.
  - unfold setMerged. rewrite Hmp. by erewrite IH.
Qed.

Lemma mergePlatformPaths_nil_map path paths k :
  MergedPaths k = None → mergePlatformPaths (path :: paths) k = (k, Panics NilMapAssignment).
Proof. intros Hnil. simpl. unfold merged, setMerged. by rewrite Hnil. Qed.

Lemma mergePlatformPaths_map paths k mp :
  MergedPaths k = Some mp →
  mergePlatformPaths paths k
  = ({| Paths := Paths k; MergedPaths := Some (setAll paths mp) |}, Returns ()).
Proof.
  revert k mp. induction paths as [|path paths IH]; intros k mp Hmp; simpl.
  - destruct k as [ps m]. simpl in *. by subst.
  - unfold merged, setMerged. rewrite Hmp. simpl.
    destruct (mp !! path) as [[]|] eqn:Hpath; simpl.
    + erewrite IH by done. unfold setAll. simpl. by rewrite insert_id.
    + by erewrite IH.
    + by erewrite IH.
Qed.

Lemma mergeDevPaths_Returns paths k k' :
  mergeDevPaths paths k = (k', Returns ()) ↔
  (MergedPaths k = None → paths = []) ∧
  k' = {| Paths := Paths k; MergedPaths := setAll paths <$> MergedPaths k |}.
Proof.
  destruct (MergedPaths k) as [mp|] eqn:Hmp.
  - rewrite (mergeDevPaths_map _ _ _ Hmp). simpl. split.
    + by intros [= <-].
    + by intros [_ ->].
  - destruct paths as [|path paths].
    + simpl. destruct k as [ps m]. simpl in *. subst m. split.
      * by intros [= <-].
      * by intros [_ ->].
    + rewrite (mergeDevPaths_nil_map _ _ _ Hmp). split; [done|].
      intros [Hnil _]. by specialize (Hnil eq_refl).
Qed.

Lemma mergePlatformPaths_Returns paths k k' :
  mergePlatformPaths paths k = (k', Returns ()) ↔
  (MergedPaths k = None → paths = []) ∧
  k' = {| Paths := Paths k; MergedPaths := setAll paths <$> MergedPaths k |}.
Proof.
  destruct (MergedPaths k) as [mp|] eqn:Hmp.
  - rewrite (mergePlatformPaths_map _ _ _ Hmp). simpl. split.
    + by intros [= <-].
    + by intros [_ ->].
  - destruct paths as [|path paths].
    + simpl. destruct k as [ps m]. simpl in *. subst m. split.
      * by intros [= <-].
      * by intros [_ ->].
    + rewrite (mergePlatformPaths_nil_map _ _ _ Hmp). split; [done|].
      intros [Hnil _]. by specialize (Hnil eq_refl).
Qed.

Lemma completeDev_Returns k devConfig k' :
  completeDev k devConfig = (k', Returns None) ↔
  parses devConfig ∧
  (MergedPaths (decoded k devConfig) = None → devPaths k devConfig = []) ∧
  k' = {| Paths := Paths (decoded k devConfig);
          MergedPaths := setAll (devPaths k devConfig) <$> MergedPaths (decoded k devConfig) |}.
Proof.
  unfold completeDev, decoded, devPaths, parses. destruct devConfig as [c|].
  - destruct (Unmarshal c k) as [ku err] eqn:Hu.
    assert (err = ConfigError <$> c_error c ∧ Paths ku = default (Paths k) (c_paths c))
      as [-> HP] by (unfold Unmarshal in Hu; by simplify_eq).
    simpl. rewrite <- HP.
    destruct (c_error c) as [msg|]; simpl.
    { split; [done | by intros [? _]]. }
    destruct (mergeDevPaths (Paths ku) ku) as [k1 [[]|r]] eqn:Hmerge.
    + apply mergeDevPaths_Returns in Hmerge as [Hnil ->]. split.
      * by intros [= <-].
      * by intros (_ & _ & ->).
    + split; [done|]. intros (_ & Hnil & ->).
      assert (mergeDevPaths (Paths ku) ku
              = ({| Paths := Paths ku; MergedPaths := setAll (Paths ku) <$> MergedPaths ku |},
                 Returns ())) as Hok by (by apply mergeDevPaths_Returns).
      congruence.
  - simpl. destruct k as [ps m]. simpl. split.
    + intros [= <-]. split_and!; [done | done |]. by destruct m.
    + intros (_ & _ & ->). by destruct m.
Qed.

Lemma completePlatform_Returns k platformConfig k' :
  completePlatform k platformConfig = (k', Returns None) ↔
  parses platformConfig ∧
  (MergedPaths k = None → platformPaths platformConfig = []) ∧
  k' = {| Paths := Paths k;
          MergedPaths := setAll (platformPaths platformConfig) <$> MergedPaths k |}.
Proof.
  unfold completePlatform, platformPaths, parses. destruct platformConfig as [c|].
  - destruct (Unmarshal c _) as [tmpK err] eqn:Hu.
    assert (err = ConfigError <$> c_error c ∧ Paths tmpK = default [] (c_paths c))
      as [-> HP] by (unfold Unmarshal in Hu; by simplify_eq).
    simpl. rewrite <- HP.
    destruct (c_error c) as [msg|]; simpl.
    { split; [done | by intros [? _]]. }
    destruct (mergePlatformPaths (Paths tmpK) k) as [k1 [[]|r]] eqn:Hmerge.
    + apply mergePlatformPaths_Returns in Hmerge as [Hnil ->]. split.
      * by intros [= <-].
      * by intros (_ & _ & ->).
    + split; [done|]. intros (_ & Hnil & ->).
      assert (mergePlatformPaths (Paths tmpK) k
              = ({| Paths := Paths k; MergedPaths := setAll (Paths tmpK) <$> MergedPaths k |},
                 Returns ())) as Hok by (by apply mergePlatformPaths_Returns).
      congruence.
  - simpl. destruct k as [ps m]. simpl. split.
    + intros [= <-]. split_and!; [done | done |]. by destruct m.
    + intros (_ & _ & ->). by destruct m.
Qed.

(** [CompleteConfig] returns [nil] exactly when both configurations
    parse and no path has to be written into a [nil] map; it then leaves
    the instance [completed]. *)
Lemma CompleteConfig_Returns k devConfig platformConfig k' :
  CompleteConfig k devConfig platformConfig = (k', Returns None) ↔
  parses devConfig ∧ parses platformConfig ∧
  (MergedPaths (decoded k devConfig) = None →
   devPaths k devConfig ++ platformPaths platformConfig = []) ∧
  k' = completed k devConfig platformConfig.
Proof.
  unfold CompleteConfig, completed.
  destruct (completeDev k devConfig) as [k1 [[e|]|r]] eqn:Hdev.
  - split; [done|]. intros (Hp & _ & Hnil & _).
    assert (completeDev k devConfig
            = ({| Paths := Paths (decoded k devConfig);
                  MergedPaths := setAll (devPaths k devConfig)
                                   <$> MergedPaths (decoded k devConfig) |},
               Returns None)) as Hok.
    { apply completeDev_Returns. split_and!; [done | | done].
      intros Hm. by destruct (app_eq_nil _ _ (Hnil Hm)). }
    congruence.
  - apply completeDev_Returns in Hdev as (Hp & Hnil & ->).
    rewrite completePlatform_Returns. simpl. split.
    + intros (Hpp & Hnil' & ->). split_and!; [done | done | | ].
      * intros Hm. rewrite Hnil by done. simpl. apply Hnil'. by rewrite Hm.
      * f_equal. destruct (MergedPaths (decoded k devConfig)); simpl; [|done].
        by rewrite setAll_app.
    + intros (_ & Hpp & Hnil' & ->). split_and!; [done | | ].
      * intros Hm. destruct (MergedPaths (decoded k devConfig)); [done|].
        by destruct (app_eq_nil _ _ (Hnil' eq_refl)).
      * f_equal. destruct (MergedPaths (decoded k devConfig)); simpl; [|done].
        by rewrite setAll_app.
  - split; [done|]. intros (Hp & _ & Hnil & _).
    assert (completeDev k devConfig
            = ({| Paths := Paths (decoded k devConfig);
                  MergedPaths := setAll (devPaths k devConfig)
                                   <$> MergedPaths (decoded k devConfig) |},
               Returns None)) as Hok.
    { apply completeDev_Returns. split_and!; [done | | done].
      intros Hm. by destruct (app_eq_nil _ _ (Hnil Hm)). }
    congruence.
Qed.

Lemma keys_elem {V} (m : gmap string V) path : path ∈ keys m ↔ is_Some (m !! path).
Proof.
  unfold keys. rewrite list_elem_of_fmap. split.
  - intros ([p v] & -> & Hin). apply elem_of_map_to_list in Hin. by exists v.
  - intros [v Hv]. exists (path, v). split; [done|]. by apply elem_of_map_to_list.
Qed.

Lemma keys_NoDup {V} (m : gmap string V) : NoDup (keys m).
Proof. apply NoDup_fst_map_to_list. Qed.

Lemma keys_Permutation {V W} (m1 : gmap string V) (m2 : gmap string W) :
  (∀ path, is_Some (m1 !! path) ↔ is_Some (m2 !! path)) → keys m1 ≡ₚ keys m2.
Proof.
  intros Hdom. apply NoDup_Permutation; [apply keys_NoDup | apply keys_NoDup |].
  intros path. by rewrite !keys_elem.
Qed.

Lemma completed_lookup k devConfig platformConfig path :
  (MergedPaths (decoded k devConfig) = None →
   devPaths k devConfig ++ platformPaths platformConfig = []) →
  mergedMap (completed k devConfig platformConfig) !! path =
    if decide (path ∈ devPaths k devConfig ++ platformPaths platformConfig)
    then Some true else mergedMap (decoded k devConfig) !! path.
Proof.
  intros Hnil. unfold mergedMap, completed. simpl.
  destruct (MergedPaths (decoded k devConfig)) as [mp|]; simpl.
  - apply setAll_lookup.
  - rewrite Hnil by done. by rewrite decide_False by apply not_elem_of_nil.
Qed.

Lemma merged_true k path : merged k path = true ↔ mergedMap k !! path = Some true.
Proof.
  unfold merged, mergedMap. destruct (MergedPaths k) as [mp|]; simpl.
  - destruct (mp !! path) as [[]|]; simpl; split; by intros.
  - rewrite lookup_empty. split; by intros.
Qed.

Lemma rangePaths_Permutation s k : fair s → rangePaths s k ≡ₚ keys (mergedMap k).
Proof. intros [Hp _]. apply Hp. Qed.

(** Decoding the [mergedPaths] key lays its entries over the map, the
    last entry of a path winning. *)
Lemma entries_union (entries : list (string * bool)) (mp : gmap string bool) :
  foldl (λ m e, <[e.1 := e.2]> m) mp entries = list_to_map (reverse entries) ∪ mp.
Proof.
  revert mp. induction entries as [|[p b] entries IH]; intros mp; simpl.
  - by rewrite (left_id_L ∅ (∪)).
  - rewrite IH, reverse_cons, list_to_map_app. simpl.
    rewrite <- (assoc_L (∪)). f_equal.
    by rewrite insert_empty, <- insert_union_singleton_l.
Qed.

Lemma setAll_entries_again paths entries (mp : gmap string bool) :
  setAll paths (foldl (λ m e, <[e.1 := e.2]> m)
                  (setAll paths (foldl (λ m e, <[e.1 := e.2]> m) mp entries)) entries)
  = setAll paths (foldl (λ m e, <[e.1 := e.2]> m) mp entries).
Proof.
  rewrite !entries_union. apply map_eq. intros path.
  rewrite !setAll_lookup. case_decide as Hin; [done|].
  rewrite !lookup_union, setAll_lookup. rewrite decide_False by done.
  rewrite lookup_union.
  by destruct (list_to_map (reverse entries) !! path), (mp !! path).
Qed.

Lemma setAll_again paths (mp : gmap string bool) :
  setAll paths (setAll paths mp) = setAll paths mp.
Proof.
  apply map_eq. intros path. rewrite !setAll_lookup. by case_decide.
Qed.

(** A second call with the same configurations finds the instance as
    the first call left it, and leaves it so. *)
Lemma CompleteConfig_again k devConfig platformConfig k' :
  CompleteConfig k devConfig platformConfig = (k', Returns None) →
  CompleteConfig k' devConfig platformConfig = (k', Returns None).
Proof.
  intros (Hd & Hp & Hnil & ->)%CompleteConfig_Returns.
  apply CompleteConfig_Returns.
  set (paths := devPaths k devConfig ++ platformPaths platformConfig) in *.
  assert (devPaths (completed k devConfig platformConfig) devConfig
          = devPaths k devConfig) as Hdev.
  { unfold devPaths, completed, decoded. destruct devConfig as [c|]; [|done].
    simpl. by destruct (c_paths c). }
  assert (Paths (decoded (completed k devConfig platformConfig) devConfig)
          = Paths (decoded k devConfig)) as HP.
  { unfold completed, decoded. destruct devConfig as [c|]; [|done].
    simpl. by destruct (c_paths c). }
  assert (setAll paths <$> MergedPaths (decoded (completed k devConfig platformConfig) devConfig)
          = setAll paths <$> MergedPaths (decoded k devConfig)) as HM.
  { unfold completed, decoded. fold paths. destruct devConfig as [c|]; simpl.
    - destruct (c_mergedPaths c) as [[entries|]|]; simpl.
      + f_equal. destruct (MergedPaths k) as [mp|]; simpl; apply setAll_entries_again.
      + done.
      + destruct (MergedPaths k) as [mp|]; simpl; [|done]. by rewrite setAll_again.
    - destruct (MergedPaths k) as [mp|]; simpl; [|done]. by rewrite setAll_again. }
  split_and!; [done | done | | ].
  - rewrite Hdev. fold paths. intros Hnone. apply Hnil.
    rewrite Hnone in HM. simpl in HM.
    by destruct (MergedPaths (decoded k devConfig)).
  - symmetry. unfold completed at 1. rewrite Hdev, HP. fold paths. by rewrite HM.
Qed.

(** ** Reading the files *)

Lemma nonEmpty_cons data rest :
  nonEmpty (data :: rest) =
    if bool_decide (length data = 0%nat) then nonEmpty rest else data :: nonEmpty rest.
Proof.
  unfold nonEmpty. case_bool_decide as Hlen.
  - by rewrite filter_cons_False by (by intros ?).
  - by rewrite filter_cons_True.
Qed.

Lemma appendDocuments_addDocs filePath docs m :
  appendDocuments filePath docs m = addDocs filePath (nonEmpty docs) m.
Proof.
  revert m. induction docs as [|data rest IH]; intros m; [reflexivity|].
  simpl. rewrite nonEmpty_cons. case_bool_decide as Hlen; [apply IH|].
  rewrite IH. unfold addDocs. destruct (nonEmpty rest) as [|d ds]; [done|].
  rewrite lookup_insert_eq, insert_insert_eq. simpl.
  by rewrite <- app_assoc.
Qed.

Lemma appendManifest_read w filePath m :
  match read w filePath with
  | Some _ => appendManifest w filePath m = (addFile w m filePath, None)
  | None => ∃ m' err, appendManifest w filePath m = (m', Some err)
  end.
Proof.
  unfold addFile, read, appendManifest.
  destruct (Open w filePath) as [[docs [e|]]|e]; simpl; eauto.
  by rewrite appendDocuments_addDocs.
Qed.

Lemma walk_walked w entries m :
  match walked w entries with
  | Some files => walk w entries m = (foldl (addFile w) m files, None)
  | None => ∃ m' err, walk w entries m = (m', Some err)
  end.
Proof.
  revert m. induction entries as [|[filePath [e|]] rest IH]; intros m; simpl;
    [done | eauto |].
  destruct (ignoreFile w filePath FileExtensions); [apply IH|].
  pose proof (appendManifest_read w filePath m) as Hread.
  destruct (read w filePath) as [docs|].
  - rewrite Hread. specialize (IH (addFile w m filePath)).
    by destruct (walked w rest) as [files|].
  - destruct Hread as (m' & err & ->). eauto.
Qed.

Lemma visitPath_visited w path m :
  match visited w path with
  | Some files => visitPath w path m = (foldl (addFile w) m files, None)
  | None => ∃ m' err, visitPath w path m = (m', Some err)
  end.
Proof.
  unfold visited, visitPath. destruct (Stat w path) as [[]|e]; [ | | eauto].
  - apply walk_walked.
  - pose proof (appendManifest_read w path m) as Hread.
    by destruct (read w path).
Qed.

Lemma visitPaths_visitedAll w paths m :
  match visitedAll w paths with
  | Some files => visitPaths w paths m = (foldl (addFile w) m files, None)
  | None => ∃ m' err, visitPaths w paths m = (m', Some err)
  end.
Proof.
  revert m. induction paths as [|path rest IH]; intros m; simpl; [done|].
  pose proof (visitPath_visited w path m) as Hpath.
  destruct (visited w path) as [files|]; simpl.
  - rewrite Hpath. specialize (IH (foldl (addFile w) m files)).
    destruct (visitedAll w rest) as [more|]; simpl; [|done].
    by rewrite foldl_app.
  - destruct Hpath as (m' & err & ->). eauto.
Qed.

Lemma visitPaths_success w paths m m' :
  visitPaths w paths m = (m', None) ↔
  ∃ files, visitedAll w paths = Some files ∧ m' = foldl (addFile w) m files.
Proof.
  pose proof (visitPaths_visitedAll w paths m) as Hall.
  destruct (visitedAll w paths) as [files|].
  - rewrite Hall. split.
    + intros [= <-]. by exists files.
    + by intros (? & [= <-] & ->).
  - destruct Hall as (m1 & err & ->). split; [done | by intros (? & ? & _)].
Qed.

(** What a file has in the map: the documents kept from its stream, in
    stream order, once for every time the file was read. *)
Lemma accumulated_lookup w files m filePath docs :
  foldl (addFile w) m files !! filePath = Some docs →
  ∃ n, docs = default [] (m !! filePath)
              ++ concat (replicate n (default [] (read w filePath))).
Proof.
  revert m. induction files as [|g rest IH]; intros m; simpl.
  - intros ->. exists 0%nat. by rewrite app_nil_r.
  - intros (n & ->)%IH. unfold addFile at 1, addDocs.
    destruct (decide (g = filePath)) as [->|Hne].
    + destruct (default [] (read w filePath)) as [|d ds] eqn:Hread.
      * by exists n.
      * rewrite lookup_insert_eq. exists (S n). simpl. by rewrite <- app_assoc.
    + destruct (default [] (read w g)) as [|d ds]; [by exists n|].
      rewrite lookup_insert_ne by done. by exists n.
Qed.

(** ** The order of the loops *)

Lemma addFile_comm w m f g :
  addFile w (addFile w m f) g = addFile w (addFile w m g) f.
Proof.
  destruct (decide (f = g)) as [->|Hne]; [done|].
  unfold addFile, addDocs.
  destruct (default [] (read w f)) as [|d ds], (default [] (read w g)) as [|e es];
    try done.
  rewrite !lookup_insert_ne by done. by apply insert_insert_ne.
Qed.

Lemma foldl_Permutation {A B} (f : B → A → B) (l1 l2 : list A) :
  (∀ b x y, f (f b x) y = f (f b y) x) →
  l1 ≡ₚ l2 → ∀ b, foldl f b l1 = foldl f b l2.
Proof.
  intros Hcomm Hperm. induction Hperm as [|x l1 l2 _ IH|x y l|l1 l2 l3 _ IH1 _ IH2];
    intros b; simpl.
  - done.
  - apply IH.
  - by rewrite Hcomm.
  - by rewrite IH1.
Qed.

Lemma concat_Permutation {A} (l1 l2 : list (list A)) :
  l1 ≡ₚ l2 → concat l1 ≡ₚ concat l2.
Proof.
  induction 1 as [|x l1 l2 _ IH|x y l|l1 l2 l3 _ IH1 _ IH2]; simpl.
  - done.
  - by rewrite IH.
  - rewrite !app_assoc. f_equiv. apply Permutation_app_comm.
  - by rewrite IH1.
Qed.

Lemma visitedAll_Permutation w paths1 paths2 :
  paths1 ≡ₚ paths2 →
  match visitedAll w paths1, visitedAll w paths2 with
  | Some files1, Some files2 => files1 ≡ₚ files2
  | None, None => True
  | _, _ => False
  end.
Proof.
  induction 1 as [|x l1 l2 _ IH|x y l|l1 l2 l3 _ IH1 _ IH2]; simpl.
  - done.
  - destruct (visited w x) as [files|]; simpl; [|done].
    destruct (visitedAll w l1), (visitedAll w l2); simpl; try done.
    by rewrite IH.
  - destruct (visited w x) as [fx|], (visited w y) as [fy|]; simpl; try done.
    destruct (visitedAll w l) as [more|]; simpl; [|done].
    rewrite !app_assoc. f_equiv. apply Permutation_app_comm.
  - destruct (visitedAll w l1), (visitedAll w l2), (visitedAll w l3); try done.
    by rewrite IH1.
Qed.

(** The accumulated documents do not depend on the order of the paths. *)
Lemma visitPaths_Permutation w paths1 paths2 m m' :
  paths1 ≡ₚ paths2 →
  visitPaths w paths1 m = (m', None) → visitPaths w paths2 m = (m', None).
Proof.
  intros Hperm (files1 & Hfiles1 & ->)%visitPaths_success.
  apply visitPaths_success.
  pose proof (visitedAll_Permutation w _ _ Hperm) as Hall. rewrite Hfiles1 in Hall.
  destruct (visitedAll w paths2) as [files2|]; [|done].
  exists files2. split; [done|].
  apply foldl_Permutation; [apply addFile_comm | done].
Qed.

(** Converting the same documents in another order gives the same
    resources in that order. *)
Lemma converted_Permutation (docs1 docs2 : list object) (rs1 : list Resource) :
  docs1 ≡ₚ docs2 →
  Forall2 (λ obj r, toResource obj = Returns r) docs1 rs1 →
  ∃ rs2, Forall2 (λ obj r, toResource obj = Returns r) docs2 rs2 ∧ rs1 ≡ₚ rs2.
Proof.
  intros Hperm. revert rs1.
  induction Hperm as [|x l1 l2 _ IH|x y l|l1 l2 l3 _ IH1 _ IH2]; intros rs1 Hrs1.
  - apply Forall2_nil_inv_l in Hrs1 as ->. by exists [].
  - apply Forall2_cons_inv_l in Hrs1 as (r & rs & Hr & Hrs & ->).
    destruct (IH rs Hrs) as (rs2 & Hrs2 & Hp).
    exists (r :: rs2). split; [by constructor | by constructor].
  - apply Forall2_cons_inv_l in Hrs1 as (ry & rs & Hry & Hrs & ->).
    apply Forall2_cons_inv_l in Hrs as (rx & rs' & Hrx & Hrs' & ->).
    exists (rx :: ry :: rs'). split; [by repeat constructor | apply perm_swap].
  - destruct (IH1 rs1 Hrs1) as (rs2 & Hrs2 & Hp12).
    destruct (IH2 rs2 Hrs2) as (rs3 & Hrs3 & Hp23).
    exists rs3. split; [done | by etransitivity].
Qed.

(** ** The claims about one call *)

(** C4, as the code has it.  When both configurations parse and the
    call returns, every developer path and every platform path is
    merged, the entries of other paths are as decoding left them, and a
    loop over the merged paths visits each path once: the paths that
    were in the map, the developer paths and the platform paths, without
    duplicates, in an order that is any rearrangement of them. *)
Theorem CompleteConfig_merged_paths k devConfig platformConfig k' s :
  CompleteConfig k devConfig platformConfig = (k', Returns None) →
  fair s →
  let declaredPaths := devPaths k devConfig ++ platformPaths platformConfig in
  let before := mergedMap (decoded k devConfig) in
  (∀ path, path ∈ declaredPaths → merged k' path = true) ∧
  (∀ path, path ∉ declaredPaths → mergedMap k' !! path = before !! path) ∧
  NoDup (rangePaths s k') ∧
  rangePaths s k' ≡ₚ remove_dups (keys before ++ declaredPaths).
Proof.
  intros (Hd & Hp & Hnil & ->)%CompleteConfig_Returns Hfair declaredPaths before.
  assert (∀ path, mergedMap (completed k devConfig platformConfig) !! path =
            if decide (path ∈ declaredPaths) then Some true else before !! path)
    as Hlookup by (intros path; by apply completed_lookup).
  split_and!.
  - intros path Hin. apply merged_true. rewrite Hlookup. by rewrite decide_True.
  - intros path Hnin. rewrite Hlookup. by rewrite decide_False.
  - rewrite (rangePaths_Permutation s _ Hfair). apply keys_NoDup.
  - rewrite (rangePaths_Permutation s _ Hfair).
    apply NoDup_Permutation; [apply keys_NoDup | apply NoDup_remove_dups |].
    intros path. rewrite keys_elem, elem_of_remove_dups, elem_of_app, keys_elem, Hlookup.
    case_decide as Hin; [|tauto]. split; [by right | by eexists].
Qed.

(** C4, the order as the claim states it: after merging one developer
    path and one platform path a loop over the merged paths need not
    meet the developer path first. *)
Lemma CompleteConfig_order_counterexample :
  ¬ (∀ s, fair s →
       rangePaths s (CompleteConfig main (Some (declares ["manifests/web.yaml"]))
                       (Some (declares ["extra/cm.json"]))).1
       = ["manifests/web.yaml"; "extra/cm.json"]).
Proof.
  intros Horder.
  pose proof (Horder inOrder fair_inOrder) as H1.
  pose proof (Horder backwards fair_backwards) as H2.
  vm_compute in H1, H2. congruence.
Qed.


(** C8.  Every resource of a response is emitted from one accumulated
    document, in order and one for one: its id is
    apiVersion:kind:name when the document has no namespace or an empty
    one, apiVersion:kind:namespace:name otherwise, its type is
    Kubernetes and its attributes are the document.  Two documents at
    different positions both have their resource, and when they declare
    the same coordinates the two resources share the id. *)
Theorem Generate_manifest_identity w s k request k' response :
  Generate w s k request = (k', (Some response, None)) →
  ∃ manifestYAMLFiles docs,
    visitPaths w (rangePaths s k') ∅ = (manifestYAMLFiles, None) ∧
    docs = concat (rangeFiles s manifestYAMLFiles) ∧
    Forall2 emitted docs (Resources response) ∧
    ∀ i j obj obj',
      i ≠ j → docs !! i = Some obj → docs !! j = Some obj' →
      ∃ r r',
        Resources response !! i = Some r ∧ Resources response !! j = Some r' ∧
        ∀ apiVersion kind namespace name,
          declared obj apiVersion kind namespace name →
          declared obj' apiVersion kind namespace name →
          ID r = manifestIdentity apiVersion kind namespace name ∧ ID r' = ID r.
Proof.
  intros Hgen. apply Generate_success, GenerateBody_success in Hgen
    as (m & Hcc & Hvisit & Hflat).
  exists m, (concat (rangeFiles s m)).
  assert (Forall2 emitted (concat (rangeFiles s m)) (Resources response)) as Hem.
  { eapply Forall2_impl; [exact Hflat|]. intros obj r. apply toResource_emitted. }
  split_and!; [done | done | done |].
  intros i j obj obj' Hij Hi Hj.
  destruct (Forall2_lookup_l _ _ _ _ _ Hem Hi) as (r & Hr & Hobj).
  destruct (Forall2_lookup_l _ _ _ _ _ Hem Hj) as (r' & Hr' & Hobj').
  exists r, r'. split_and!; [done | done |].
  intros apiVersion kind namespace name Hd Hd'.
  destruct Hobj as (a1 & k1 & ns1 & n1 & Hd1 & -> & _).
  destruct Hobj' as (a2 & k2 & ns2 & n2 & Hd2 & -> & _).
  destruct (declared_unique _ _ _ _ _ _ _ _ _ Hd Hd1) as (<- & <- & <- & <-).
  by destruct (declared_unique _ _ _ _ _ _ _ _ _ Hd' Hd2) as (<- & <- & <- & <-).
Qed.

(** C9.  A panic of the body is turned into the returned error, which
    carries the panic value, the stack and the marshalled request, next
    to a [nil] response; and whenever [Generate] returns an error the
    response is [nil]. *)
Theorem Generate_recovers w s k request :
  (∀ k' r,
     GenerateBody w s k request = (k', Panics r) →
     Generate w s k request
     = (k', (None, Some (RecoveredPanic r (Stack w) (Marshal w request))))) ∧
  (∀ k' response err,
     Generate w s k request = (k', (response, Some err)) → response = None).
Proof.
  split.
  - intros k' r Hbody. unfold Generate. by rewrite Hbody.
  - intros k' response err. unfold Generate.
    destruct (GenerateBody w s k request) as [k1 [[resp [e|]]|r]] eqn:Hbody.
    + intros [= <- <- <-]. by apply GenerateBody_returns in Hbody as [-> _].
    + done.
    + by intros [= <- <- <-].
Qed.


(** ** The claims about two calls *)

(** C2, as the code has it.  After a successful call, a second call on
    the same instance with the same request and an unchanged world
    succeeds, leaves the instance as it found it and accumulates the
    same documents per file.  Each response lists the files one after
    the other, the documents of a file in document order; the order of
    the files is the one in which each run ranges over the map, so the
    two resource lists are rearrangements of each other, and equal when
    both runs range over the files in the same order.  The documents of
    a file are those kept from its stream, once per read of the file. *)
Theorem Generate_twice w s1 s2 k request k1 response1 :
  fair s1 → fair s2 →
  Generate w s1 k request = (k1, (Some response1, None)) →
  ∃ response2 manifestYAMLFiles,
    Generate w s2 k1 request = (k1, (Some response2, None)) ∧
    visitPaths w (rangePaths s1 k1) ∅ = (manifestYAMLFiles, None) ∧
    visitPaths w (rangePaths s2 k1) ∅ = (manifestYAMLFiles, None) ∧
    flattened manifestYAMLFiles (fileOrder s1 (keys manifestYAMLFiles))
      (Resources response1) ∧
    flattened manifestYAMLFiles (fileOrder s2 (keys manifestYAMLFiles))
      (Resources response2) ∧
    (∀ filePath docs,
       manifestYAMLFiles !! filePath = Some docs →
       ∃ n, docs = concat (replicate n (default [] (read w filePath)))) ∧
    Resources response1 ≡ₚ Resources response2 ∧
    (fileOrder s1 (keys manifestYAMLFiles) = fileOrder s2 (keys manifestYAMLFiles) →
     response2 = response1).
Proof.
  intros Hfair1 Hfair2 Hgen.
  apply Generate_success, GenerateBody_success in Hgen as (m & Hcc & Hvisit1 & Hflat1).
  assert (visitPaths w (rangePaths s2 k1) ∅ = (m, None)) as Hvisit2.
  { eapply visitPaths_Permutation; [|exact Hvisit1].
    by rewrite !rangePaths_Permutation. }
  assert (concat (omap (λ f, m !! f) (fileOrder s1 (keys m)))
          ≡ₚ concat (omap (λ f, m !! f) (fileOrder s2 (keys m)))) as Hdocs.
  { apply concat_Permutation, omap_Permutation.
    destruct Hfair1 as [_ Hf1], Hfair2 as [_ Hf2]. by rewrite Hf1, Hf2. }
  destruct (converted_Permutation _ _ _ Hdocs Hflat1) as (rs2 & Hflat2 & Hperm).
  exists {| Resources := rs2 |}, m. split_and!; try done.
  - apply Generate_success, GenerateBody_success. exists m.
    split_and!; [by eapply CompleteConfig_again | done | done].
  - intros filePath docs Hdocs'.
    apply visitPaths_success in Hvisit1 as (files & _ & ->).
    apply accumulated_lookup in Hdocs' as (n & ->). exists n.
    by rewrite lookup_empty.
  - intros Horder. unfold flattened in Hflat1. rewrite Horder in Hflat1.
    destruct response1 as [rs1]. simpl in *.
    by rewrite (converted_unique _ _ _ Hflat1 Hflat2).
Qed.

(** C2, as the claim states it: two successive calls for the same two
    files can return the resources in different orders. *)
Lemma Generate_order_counterexample :
  ¬ (∀ s1 s2, fair s1 → fair s2 →
       let request := developer ["manifests/web.yaml"; "extra/cm.json"] in
       let first := Generate cluster s1 main request in
       (Generate cluster s2 first.1 request).2 = first.2).
Proof.
  intros Hsame. pose proof (Hsame inOrder backwards fair_inOrder fair_backwards) as H.
  vm_compute in H. discriminate H.
Qed.

(** C3, on two successive calls.  After a first call for one file, a
    second call on the same instance for another file also returns the
    resources of the first file, which the same request to a fresh
    instance does not: the merged path of the first request is still in
    the instance. *)
Theorem Generate_keeps_merged_paths :
  let first := developer ["manifests/web.yaml"] in
  let second := developer ["extra/cm.json"] in
  let after := (Generate cluster inOrder main first).1 in
  MergedPaths after = Some {["manifests/web.yaml" := true]} ∧
  ID <$> resourcesOf (Generate cluster inOrder after second).2.1
    = ["apps/v1:Deployment:default:web"; "v1:Service:default:web"; "v1:ConfigMap:settings"] ∧
  ID <$> resourcesOf (Generate cluster inOrder main second).2.1
    = ["v1:ConfigMap:settings"].
Proof. cbv zeta. split_and!; vm_compute; reflexivity. Qed.

(** ** Runs of the generator *)

Example directory_run :
  ID <$> resourcesOf (Generate cluster inOrder main (developer ["manifests"])).2.1
    = ["apps/v1:Deployment:default:web"; "v1:Service:default:web"] ∧
  (Generate cluster inOrder main (developer ["manifests"])).2.2 = None.
Proof. by vm_compute. Qed.

Example two_paths_run :
  ID <$> resourcesOf
    (Generate cluster inOrder main (developer ["manifests"; "extra/cm.json"])).2.1
    = ["apps/v1:Deployment:default:web"; "v1:Service:default:web"; "v1:ConfigMap:settings"].
Proof. by vm_compute. Qed.

Example Ext_examples :
  Ext "manifests/web.yaml" = ".yaml" ∧ Ext "manifests.d/notes" = "" ∧
  Ext "a/b.tar.GZ" = ".GZ" ∧ Ext "" = "".
Proof. by vm_compute. Qed.

Example missing_kind_run :
  Generate cluster inOrder main (developer ["broken.yaml"])
  = ({| Paths := ["broken.yaml"]; MergedPaths := Some {["broken.yaml" := true]} |},
     (None, Some (RecoveredPanic (TypeAssertion "string" None)
                    "goroutine 1 [running]" "{}"))).
Proof. by vm_compute. Qed.

Example missing_path_run :
  (Generate cluster inOrder main (developer ["absent"])).2
  = (None, Some (PathError "no such file or directory")).
Proof. by vm_compute. Qed.

Example nil_map_run :
  (Generate cluster inOrder main
     {| DevConfig := Some {| c_paths := Some ["manifests"];
                             c_mergedPaths := Some None; c_error := None |};
        PlatformConfig := None |}).2
  = (None, Some (RecoveredPanic NilMapAssignment "goroutine 1 [running]" "{}")).
Proof. by vm_compute. Qed.

(** ** The theorems at concrete requests *)

Lemma Generate_manifest_identity_witness :
  ∃ r r',
    resourcesOf (Generate cluster inOrder main (developer ["twice.yaml"])).2.1 = [r; r'] ∧
    ID r = "v1:ConfigMap:settings" ∧ ID r' = ID r.
Proof.
  pose (k' := {| Paths := ["twice.yaml"]; MergedPaths := Some {["twice.yaml" := true]} |}).
  pose (r := {| ID := "v1:ConfigMap:settings"; Type_ := Kubernetes; Attributes := configMap |}).
  assert (Generate cluster inOrder main (developer ["twice.yaml"])
          = (k', (Some {| Resources := [r; r] |}, None))) as Hrun
    by (vm_compute; reflexivity).
  destruct (Generate_manifest_identity _ _ _ _ _ _ Hrun)
    as (m & docs & _ & _ & Hem & Hpair).
  change (Resources {| Resources := [r; r] |}) with [r; r] in Hem, Hpair.
  apply Forall2_cons_inv_r in Hem as (o1 & docs1 & (? & ? & ? & ? & _ & _ & _ & Ho1) & Hem & ->).
  apply Forall2_cons_inv_r in Hem as (o2 & docs2 & (? & ? & ? & ? & _ & _ & _ & Ho2) & Hem & ->).
  change (Attributes r) with configMap in Ho1, Ho2. subst o1 o2.
  destruct (Hpair 0%nat 1%nat configMap configMap) as (r0 & r1 & H0 & H1 & Hid);
    [discriminate | reflexivity | reflexivity |].
  destruct (Hid "v1" "ConfigMap" None "settings") as [Hr Hr'].
  { split_and!; [reflexivity | reflexivity |]. eexists. split_and!; reflexivity. }
  { split_and!; [reflexivity | reflexivity |]. eexists. split_and!; reflexivity. }
  exists r0, r1. split_and!; [ | exact Hr | exact Hr'].
  rewrite Hrun. simpl in H0, H1. injection H0 as <-. injection H1 as <-. reflexivity.
Defined.

Lemma CompleteConfig_merged_paths_witness :
  rangePaths backwards
    (CompleteConfig main (Some (declares ["manifests/web.yaml"; "shared"]))
       (Some (declares ["shared"; "extra/cm.json"]))).1
  ≡ₚ ["manifests/web.yaml"; "shared"; "extra/cm.json"].
Proof.
  pose (k' := {| Paths := ["manifests/web.yaml"; "shared"];
                 MergedPaths := Some (setAll ["manifests/web.yaml"; "shared"; "extra/cm.json"] ∅) |}).
  assert (CompleteConfig main (Some (declares ["manifests/web.yaml"; "shared"]))
            (Some (declares ["shared"; "extra/cm.json"])) = (k', Returns None)) as Hcc
    by (by vm_compute).
  destruct (CompleteConfig_merged_paths _ _ _ _ backwards Hcc fair_backwards)
    as (_ & _ & _ & Hperm).
  rewrite Hcc. change ((k', Returns None).1) with k'.
  etransitivity; [exact Hperm|]. vm_compute. reflexivity.
Defined.

Lemma Generate_twice_witness :
  ∃ k1 response1 response2,
    Generate cluster inOrder main (developer ["manifests/web.yaml"; "extra/cm.json"])
      = (k1, (Some response1, None)) ∧
    Generate cluster backwards k1 (developer ["manifests/web.yaml"; "extra/cm.json"])
      = (k1, (Some response2, None)) ∧
    Resources response1 ≡ₚ Resources response2.
Proof.
  pose (run := Generate cluster inOrder main
                 (developer ["manifests/web.yaml"; "extra/cm.json"])).
  assert (∃ k1 response1, run = (k1, (Some response1, None)))
    as (k1 & response1 & Hrun) by (vm_compute; eauto).
  destruct (Generate_twice cluster inOrder backwards main _ k1 response1
              fair_inOrder fair_backwards Hrun)
    as (response2 & m & Hagain & _ & _ & _ & _ & _ & Hperm & _).
  exists k1, response1, response2.
  split_and!; [exact Hrun | exact Hagain | exact Hperm].
Defined.

Lemma Generate_recovers_witness :
  Generate cluster inOrder main (developer ["broken.yaml"])
  = ((GenerateBody cluster inOrder main (developer ["broken.yaml"])).1,
     (None, Some (RecoveredPanic (TypeAssertion "string" None)
                    "goroutine 1 [running]" "{}"))).
Proof.
  apply (proj1 (Generate_recovers cluster inOrder main (developer ["broken.yaml"]))).
  by vm_compute.
Defined.


End K8sManifestFacts.

(** * More about the k8s_manifest generator *)

Module K8sManifestMore.
Import K8sManifest K8sManifestFacts.

(** ** [appendManifest] *)

Lemma addDocs_lookup filePath docs (m : gmap string (list object)) g :
  addDocs filePath docs m !! g =
    if decide (g = filePath ∧ docs ≠ [])
    then Some (default [] (m !! filePath) ++ docs) else m !! g.
Proof.
  unfold addDocs. destruct docs as [|d ds].
  - rewrite decide_False; [done | by intros [_ ?]].
  - destruct (decide (g = filePath)) as [->|Hne].
    + rewrite lookup_insert_eq. by rewrite decide_True.
    + rewrite lookup_insert_ne by done. rewrite decide_False; [done | by intros [? _]].
Qed.

(** X6.  [appendManifest] returns the error of opening the file as it
    is and a decode error wrapped with the file path; it appends the
    non-empty documents decoded so far, in stream order, to the entry
    of the file, also when a decode error follows; it makes no entry
    for a file without a non-empty document and touches no other
    entry. *)
Theorem appendManifest_effect w filePath m :
  (appendManifest w filePath m).2 =
    match Open w filePath with
    | Err e => Some (PathError e)
    | Ok (_, eof) => ParseError filePath <$> eof
    end ∧
  ∀ g,
    (appendManifest w filePath m).1 !! g =
      match Open w filePath with
      | Err _ => m !! g
      | Ok (docs, _) =>
          if decide (g = filePath ∧ nonEmpty docs ≠ [])
          then Some (default [] (m !! filePath) ++ nonEmpty docs)
          else m !! g
      end.
Proof.
  unfold appendManifest. destruct (Open w filePath) as [[docs eof]|e]; simpl.
  - split; [by destruct eof|]. intros g.
    rewrite appendDocuments_addDocs. apply addDocs_lookup.
  - done.
Qed.

(** ** The accumulated documents *)

Lemma nonEmpty_Forall docs : Forall (λ data : object, data ≠ []) (nonEmpty docs).
Proof.
  unfold nonEmpty. apply Forall_forall. intros data Hin.
  apply list_elem_of_filter in Hin as [Hlen _]. by destruct data.
Qed.

Lemma addDocs_tidy filePath docs m :
  Forall (λ data : object, data ≠ []) docs → tidy m → tidy (addDocs filePath docs m).
Proof.
  intros Hdocs Hm g ds. rewrite addDocs_lookup. case_decide as Hg; [|apply Hm].
  destruct Hg as [-> Hne]. intros [= <-]. split.
  - intros [_ ?]%app_eq_nil. done.
  - apply Forall_app. split; [|done].
    destruct (m !! filePath) as [old|] eqn:Hold; simpl; [|constructor].
    by apply (Hm _ _ Hold).
Qed.

Lemma appendManifest_tidy w filePath m : tidy m → tidy (appendManifest w filePath m).1.
Proof.
  intros Hm. unfold appendManifest.
  destruct (Open w filePath) as [[docs eof]|e]; simpl; [|done].
  rewrite appendDocuments_addDocs. apply addDocs_tidy; [apply nonEmpty_Forall | done].
Qed.

Lemma walk_tidy w entries m : tidy m → tidy (walk w entries m).1.
Proof.
  revert m. induction entries as [|[filePath [e|]] rest IH]; intros m Hm; simpl;
    [done | done |].
  destruct (ignoreFile w filePath FileExtensions); [by apply IH|].
  pose proof (appendManifest_tidy w filePath m Hm) as Happ.
  destruct (appendManifest w filePath m) as [m' [err|]]; [done | by apply IH].
Qed.

Lemma visitPath_tidy w path m : tidy m → tidy (visitPath w path m).1.
Proof.
  intros Hm. unfold visitPath. destruct (Stat w path) as [[]|e]; simpl.
  - by apply walk_tidy.
  - by apply appendManifest_tidy.
  - done.
Qed.

(** X7.  Whatever the paths and whether or not the visit fails, every
    entry of the accumulated map is a non-empty list of non-empty
    documents: blank documents and files without documents leave
    nothing behind. *)
Theorem visitPaths_tidy w paths : tidy (visitPaths w paths ∅).1.
Proof.
  assert (∀ m, tidy m → tidy (visitPaths w paths m).1) as Hany.
  { induction paths as [|path rest IH]; intros m Hm; simpl; [done|].
    pose proof (visitPath_tidy w path m Hm) as Hpath.
    destruct (visitPath w path m) as [m' [err|]]; [done | by apply IH]. }
  apply Hany. intros filePath docs. by rewrite lookup_empty.
Qed.

(** ** [ignoreFile] *)

Lemma matchesExtension_spec w ext extensions :
  matchesExtension w ext extensions = true ↔
  ∃ s, s ∈ extensions ∧ EqualFold w s ext = true.
Proof.
  induction extensions as [|s rest IH]; simpl.
  - split; [done | by intros (? & ?%elem_of_nil & _)].
  - destruct (EqualFold w s ext) eqn:Hs.
    + split; [|done]. intros _. exists s. split; [by left | done].
    + rewrite IH. split.
      * intros (t & Ht & Hfold). exists t. split; [by right | done].
      * intros (t & [->|Ht]%elem_of_cons & Hfold); [congruence | by exists t].
Qed.

(** X8.  A path is kept exactly when the list of extensions is empty
    or one of them equals, under case folding, the extension of the
    path. *)
Theorem ignoreFile_spec w path extensions :
  ignoreFile w path extensions = false ↔
  extensions = [] ∨ ∃ s, s ∈ extensions ∧ EqualFold w s (Ext path) = true.
Proof.
  unfold ignoreFile. case_bool_decide as Hlen.
  - split; [|done]. intros _. left. by apply nil_length_inv.
  - rewrite negb_false_iff, matchesExtension_spec. split; [by right|].
    intros [->|?]; done.
Qed.

Lemma extScan_plain (chars : list ascii) before suffix :
  Forall (λ c, c ≠ "."%char ∧ c ≠ "/"%char) chars →
  extScan (reverse chars ++ before) suffix
  = extScan before (String.string_of_list_ascii chars +:+ suffix).
Proof.
  revert before suffix. induction chars as [|c chars IH]; intros before suffix Hplain.
  - done.
  - apply Forall_cons in Hplain as [[Hdot Hsep] Hplain].
    rewrite reverse_cons, <- app_assoc. simpl. rewrite IH by done. simpl.
    unfold IsPathSeparator. by rewrite !bool_decide_eq_false_2.
Qed.

Lemma list_ascii_of_string_app s t :
  String.list_ascii_of_string (s +:+ t)
  = String.list_ascii_of_string s ++ String.list_ascii_of_string t.
Proof. induction s as [|c s IH]; simpl; [done | by rewrite IH]. Qed.

Lemma Ext_last base e : plain e → Ext (base +:+ String "." e) = String "." e.
Proof.
  intros Hplain. unfold Ext. rewrite list_ascii_of_string_app. simpl.
  rewrite reverse_app, reverse_cons, <- !app_assoc.
  rewrite extScan_plain by done. simpl.
  rewrite String.string_of_list_ascii_of_string.
  assert (∀ s, s +:+ "" = s) as Hnil.
  { intros s. induction s as [|c s IH]; [done|].
    change (String c s +:+ "") with (String c (s +:+ "")). by rewrite IH. }
  by rewrite Hnil.
Qed.

(** X9.  Only the last extension of a path counts: for an ending
    without a dot and without a separator, the path is ignored or kept
    as its extension alone would be, whatever the directories and the
    name before it. *)
Theorem ignoreFile_last_extension w base e extensions :
  plain e →
  Ext (base +:+ String "." e) = String "." e ∧
  ignoreFile w (base +:+ String "." e) extensions
  = ignoreFile w (String "." e) extensions.
Proof.
  intros Hplain. split; [by apply Ext_last|].
  unfold ignoreFile. rewrite Ext_last by done.
  pose proof (Ext_last "" e Hplain) as Halone.
  change ("" +:+ String "." e) with (String "." e) in Halone. by rewrite Halone.
Qed.

(** X10.  A walk never opens a file whose extension is not recognised:
    it goes as the walk over the entries that failed to list or are
    recognised, the others left out. *)
Theorem walk_skips_ignored w entries m :
  walk w entries m = walk w (filter (λ entry, looked w entry = true) entries) m.
Proof.
  revert m. induction entries as [|[filePath [e|]] rest IH]; intros m.
  - done.
  - by rewrite filter_cons_True by done.
  - destruct (ignoreFile w filePath FileExtensions) eqn:Hig.
    + rewrite filter_cons_False.
      * simpl. rewrite Hig. apply IH.
      * intros Hlooked. unfold looked in Hlooked. simpl in Hlooked.
        rewrite Hig in Hlooked. by vm_compute in Hlooked.
    + rewrite filter_cons_True by (unfold looked; simpl; by rewrite Hig).
      simpl. rewrite Hig.
      destruct (appendManifest w filePath m) as [m' [err|]]; [done | apply IH].
Qed.

(** ** Documents that do not convert *)

Lemma toResource_Panics obj p :
  toResource obj = Panics p →
  (∃ wanted found, p = TypeAssertion wanted found) ∧
  ¬ ∃ apiVersion kind namespace name, declared obj apiVersion kind namespace name.
Proof.
  intros Hres. split.
  - revert Hres. unfold toResource, mbind, outcome_bind.
    assert (∀ v q, assertString v = Panics q → ∃ wanted found, q = TypeAssertion wanted found)
      as Hstr by (intros v q Hq; destruct v as [[]|]; simplify_eq/=; eauto).
    destruct (assertString (index obj "apiVersion")) as [a|] eqn:Ha;
      [|intros [= <-]; by eapply Hstr].
    destruct (assertString (index obj "kind")) as [k|] eqn:Hk;
      [|intros [= <-]; by eapply Hstr].
    destruct (assertMap (index obj "metadata")) as [md|] eqn:Hm;
      [|intros [= <-]; destruct (index obj "metadata") as [[]|]; simplify_eq/=; eauto].
    destruct (assertString (index md "name")) as [n|] eqn:Hn;
      [|intros [= <-]; by eapply Hstr].
    destruct (index md "namespace") as [ns|]; [|done].
    destruct (assertString (Some ns)) as [nsv|] eqn:Hns; [done|].
    intros [= <-]. by eapply Hstr.
  - intros (a & k & ns & n & Hd).
    assert (emitted obj {| ID := manifestIdentity a k ns n; Type_ := Kubernetes;
                           Attributes := obj |}) as Hem by (by exists a, k, ns, n).
    apply emitted_toResource in Hem. congruence.
Qed.

(** X11.  A document converts exactly when it declares a string
    apiVersion, a string kind, a metadata object with a string name
    and, if it has a namespace at all, a string one; every other
    document panics with a failed type assertion. *)
Theorem toResource_cases obj :
  (∃ r, toResource obj = Returns r ∧ emitted obj r) ∨
  (∃ wanted found,
     toResource obj = Panics (TypeAssertion wanted found) ∧
     ¬ ∃ apiVersion kind namespace name, declared obj apiVersion kind namespace name).
Proof.
  destruct (toResource obj) as [r|p] eqn:Hres.
  - left. exists r. split; [done | by apply toResource_emitted].
  - right. apply toResource_Panics in Hres as [(wanted & found & ->) Hnot].
    by exists wanted, found.
Qed.

Lemma appendResources_Panics objList resources p :
  appendResources objList resources = Panics p →
  ∃ obj, obj ∈ objList ∧ toResource obj = Panics p.
Proof.
  revert resources. induction objList as [|obj rest IH]; intros resources; [done|].
  simpl. unfold mbind, outcome_bind. destruct (toResource obj) as [r|q] eqn:Hobj.
  - intros (o & Hin & Ho)%IH. exists o. split; [by right | done].
  - intros [= ->]. exists obj. split; [by left | done].
Qed.

Lemma convertFiles_Panics objLists resources p :
  convertFiles objLists resources = Panics p →
  ∃ obj, obj ∈ concat objLists ∧ toResource obj = Panics p.
Proof.
  revert resources. induction objLists as [|objList rest IH]; intros resources; [done|].
  simpl. unfold mbind, outcome_bind.
  destruct (appendResources objList resources) as [mid|q] eqn:Hmid.
  - intros (o & Hin & Ho)%IH. exists o. split; [|done].
    apply elem_of_app. by right.
  - intros [= ->]. apply appendResources_Panics in Hmid as (o & Hin & Ho).
    exists o. split; [|done]. apply elem_of_app. by left.
Qed.

(** ** One call, whatever the order of the loops *)





(** X13.  One document that does not declare its coordinates fails the
    whole call: with the paths merged and every file read, the call
    still returns no response and the recovered type assertion
    failure, whatever the other documents are. *)
Theorem Generate_bad_document w s k request k' m obj :
  CompleteConfig k (DevConfig request) (PlatformConfig request) = (k', Returns None) →
  visitPaths w (rangePaths s k') ∅ = (m, None) →
  obj ∈ concat (rangeFiles s m) →
  (¬ ∃ apiVersion kind namespace name, declared obj apiVersion kind namespace name) →
  ∃ wanted found,
    Generate w s k request
    = (k', (None, Some (RecoveredPanic (TypeAssertion wanted found)
                          (Stack w) (Marshal w request)))).
Proof.
  intros Hcc Hvisit Hin Hbad. unfold Generate, GenerateBody. rewrite Hcc, Hvisit.
  destruct (convertFiles (rangeFiles s m) []) as [resources|p] eqn:Hconv.
  - exfalso. apply convertFiles_Returns in Hconv as (new & _ & Hnew).
    apply list_elem_of_lookup in Hin as [i Hi].
    destruct (Forall2_lookup_l _ _ _ _ _ Hnew Hi) as (r & _ & Hr).
    apply Hbad. apply toResource_emitted in Hr as (a & kd & ns & n & Hd & _). eauto.
  - apply convertFiles_Panics in Hconv as (o & _ & Ho).
    apply toResource_Panics in Ho as [(wanted & found & ->) _]. by exists wanted, found.
Qed.

Lemma keys_singleton {V} path (v : V) : keys ({[path := v]} : gmap string V) = [path].
Proof. unfold keys. by rewrite map_to_list_singleton. Qed.

(** X14.  A file named by the developer is read whatever its
    extension: on the instance of [main], a request for one regular
    file that decodes to its end returns one resource for each of its
    non-empty documents, in document order, and leaves the path merged
    in the instance. *)
Theorem Generate_single_file w s path docs rs :
  fair s →
  Stat w path = Ok false →
  Open w path = Ok (docs, None) →
  Forall2 (λ obj r, toResource obj = Returns r) (nonEmpty docs) rs →
  Generate w s main (developer [path])
  = ({| Paths := [path]; MergedPaths := Some {[path := true]} |},
     (Some {| Resources := rs |}, None)).
Proof.
  intros Hfair Hstat Hopen Hrs.
  apply Generate_success, GenerateBody_success.
  exists (addDocs path (nonEmpty docs) ∅). split_and!.
  - unfold CompleteConfig, completeDev, completePlatform, developer, declares, main,
      Unmarshal, setMerged. simpl. by rewrite insert_empty.
  - unfold rangePaths. simpl. rewrite keys_singleton.
    destruct Hfair as [Hp _]. specialize (Hp [path]).
    apply Permutation_singleton_r in Hp as ->. simpl.
    unfold visitPath. rewrite Hstat. unfold appendManifest. rewrite Hopen.
    by rewrite appendDocuments_addDocs.
  - unfold flattened, addDocs. simpl. destruct Hfair as [_ Hf].
    destruct (nonEmpty docs) as [|d ds] eqn:Hne.
    + rewrite keys_empty. specialize (Hf []). apply Permutation_nil_r in Hf as ->.
      simpl. by apply Forall2_nil_inv_l in Hrs as ->.
    + rewrite lookup_empty, insert_empty, keys_singleton. simpl.
      specialize (Hf [path]). apply Permutation_singleton_r in Hf as ->. simpl.
      rewrite lookup_singleton_eq. simpl. by rewrite app_nil_r.
Qed.

(** ** Paths that cannot be read *)

(** Where an error of the visit comes from. *)
Lemma appendManifest_error w filePath m m' err :
  appendManifest w filePath m = (m', Some err) →
  (∃ msg, err = PathError msg ∧ Open w filePath = Err msg) ∨
  (∃ msg docs, err = ParseError filePath msg ∧ Open w filePath = Ok (docs, Some msg)).
Proof.
  unfold appendManifest. destruct (Open w filePath) as [[docs [e|]]|e]; intros [= <- <-].
  - right. by exists e, docs.
  - left. by exists e.
Qed.

Lemma walk_error w entries m m' err :
  walk w entries m = (m', Some err) →
  (∃ filePath msg, err = PathError msg ∧ (filePath, Some msg) ∈ entries) ∨
  (∃ filePath msg, (filePath, None) ∈ entries ∧
     err = PathError msg ∧ Open w filePath = Err msg) ∨
  (∃ filePath msg docs, (filePath, None) ∈ entries ∧
     err = ParseError filePath msg ∧ Open w filePath = Ok (docs, Some msg)).
Proof.
  revert m. induction entries as [|[filePath [e|]] rest IH]; intros m; simpl; [done | |].
  - intros [= <- <-]. left. exists filePath, e. split; [done | by left].
  - assert (walk w rest m = (m', Some err) ∨
            (∃ m1, walk w rest m1 = (m', Some err)) ∨
            appendManifest w filePath m = (m', Some err) →
            (∃ f msg, err = PathError msg ∧ (f, Some msg) ∈ (filePath, None) :: rest) ∨
            (∃ f msg, (f, None) ∈ (filePath, None) :: rest ∧
               err = PathError msg ∧ Open w f = Err msg) ∨
            (∃ f msg docs, (f, None) ∈ (filePath, None) :: rest ∧
               err = ParseError f msg ∧ Open w f = Ok (docs, Some msg))) as Hcases.
    { intros [Hrest|[[m1 Hrest]|Happ]].
      - apply IH in Hrest as [(f & msg & ? & ?)|[(f & msg & ? & ?)|(f & msg & docs & ? & ?)]].
        + left. exists f, msg. split; [done | by right].
        + right. left. exists f, msg. split; [by right | done].
        + right. right. exists f, msg, docs. split; [by right | done].
      - apply IH in Hrest as [(f & msg & ? & ?)|[(f & msg & ? & ?)|(f & msg & docs & ? & ?)]].
        + left. exists f, msg. split; [done | by right].
        + right. left. exists f, msg. split; [by right | done].
        + right. right. exists f, msg, docs. split; [by right | done].
      - apply appendManifest_error in Happ as [(msg & ? & ?)|(msg & docs & ? & ?)].
        + right. left. exists filePath, msg. split; [by left | done].
        + right. right. exists filePath, msg, docs. split; [by left | done]. }
    destruct (ignoreFile w filePath FileExtensions); [intros ?; apply Hcases; by left|].
    destruct (appendManifest w filePath m) as [m1 [e|]] eqn:Happ.
    + intros [= <- <-]. apply Hcases. by right; right.
    + intros ?. apply Hcases. right. left. by exists m1.
Qed.

(** X20.  An error of the visit is never made up: a parse error names
    a file whose stream stopped with that decode error, and a path
    error is the error of [os.Stat] on one of the paths, of the listing
    of one of its entries, or of opening one of the files. *)
Theorem visitPaths_error w paths m m' err :
  visitPaths w paths m = (m', Some err) →
  (∃ filePath msg docs,
     err = ParseError filePath msg ∧ Open w filePath = Ok (docs, Some msg)) ∨
  (∃ msg, err = PathError msg ∧
     ((∃ path, path ∈ paths ∧ Stat w path = Err msg) ∨
      (∃ path filePath, path ∈ paths ∧ (filePath, Some msg) ∈ WalkDir w path) ∨
      (∃ filePath, Open w filePath = Err msg))).
Proof.
  revert m. induction paths as [|path rest IH]; intros m; [done|]. simpl.
  destruct (visitPath w path m) as [m1 [e|]] eqn:Hpath.
  - intros [= <- <-]. revert Hpath. unfold visitPath.
    destruct (Stat w path) as [[]|e0] eqn:Hstat.
    + intros [(f & msg & -> & Hin)|[(f & msg & _ & -> & Hopen)
                                   |(f & msg & docs & _ & -> & Hopen)]]%walk_error.
      * right. exists msg. split; [done|]. right. left. exists path, f.
        split; [by left | done].
      * right. exists msg. split; [done|]. right. right. by exists f.
      * left. by exists f, msg, docs.
    + intros [(msg & -> & Hopen)|(msg & docs & -> & Hopen)]%appendManifest_error.
      * right. exists msg. split; [done|]. right. right. by exists path.
      * left. by exists path, msg, docs.
    + intros [= <- <-]. right. exists e0. split; [done|]. left. exists path.
      split; [by left | done].
  - intros [Hparse|(msg & -> & [(p & Hin & Hs)|[(p & f & Hin & Hf)|Hopen]])]%IH.
    + by left.
    + right. exists msg. split; [done|]. left. exists p. split; [by right | done].
    + right. exists msg. split; [done|]. right. left. exists p, f. split; [by right | done].
    + right. exists msg. split; [done|]. by right; right.
Qed.

Lemma visitedAll_None w paths path :
  path ∈ paths → visited w path = None → visitedAll w paths = None.
Proof.
  induction paths as [|p rest IH]; intros Hin Hnone; [by apply elem_of_nil in Hin|].
  apply elem_of_cons in Hin as [->|Hin]; simpl.
  - by rewrite Hnone.
  - rewrite (IH Hin Hnone). by destruct (visited w p).
Qed.

(** X21.  One merged path that cannot be read fails the whole call,
    whatever the others hold and in whatever order they are visited:
    the response is [nil] and the error is a path error or a parse
    error. *)
Theorem Generate_unreadable_path w s k request k' path :
  CompleteConfig k (DevConfig request) (PlatformConfig request) = (k', Returns None) →
  fair s →
  is_Some (mergedMap k' !! path) →
  visited w path = None →
  ∃ err,
    Generate w s k request = (k', (None, Some err)) ∧
    ((∃ msg, err = PathError msg) ∨ (∃ filePath msg, err = ParseError filePath msg)).
Proof.
  intros Hcc Hfair Hin Hnone.
  assert (path ∈ rangePaths s k') as Hrange.
  { rewrite (rangePaths_Permutation s k' Hfair). by apply keys_elem. }
  pose proof (visitPaths_visitedAll w (rangePaths s k') ∅) as Hall.
  rewrite (visitedAll_None _ _ _ Hrange Hnone) in Hall.
  destruct Hall as (m' & err & Hvisit). exists err. split.
  - unfold Generate, GenerateBody. by rewrite Hcc, Hvisit.
  - apply visitPaths_error in Hvisit
      as [(f & msg & docs & -> & _)|(msg & -> & _)]; [right | left]; eauto.
Qed.

(** ** [CompleteConfig] and [ValidateConfig] *)

Lemma setAll_nil_fmap (mp : option (gmap string bool)) : setAll [] <$> mp = mp.
Proof. by destruct mp. Qed.

Lemma completeDev_cases k devConfig :
  completeDev k devConfig =
    match configError devConfig with
    | Some msg => (decoded k devConfig, Returns (Some (ConfigError msg)))
    | None =>
        if decide (MergedPaths (decoded k devConfig) = None ∧ devPaths k devConfig ≠ [])
        then (decoded k devConfig, Panics NilMapAssignment)
        else (developerMerged k devConfig, Returns None)
    end.
Proof.
  unfold developerMerged, configError. destruct devConfig as [c|].
  - unfold completeDev, decoded, devPaths.
    destruct (Unmarshal c k) as [ku err] eqn:Hu.
    assert (err = ConfigError <$> c_error c ∧ Paths ku = default (Paths k) (c_paths c))
      as [-> HP] by (unfold Unmarshal in Hu; by simplify_eq).
    cbn [fst mbind option_bind]. rewrite <- HP.
    destruct (c_error c) as [msg|]; cbn [fmap option_fmap option_map]; [done|].
    case_decide as Hd.
    + destruct Hd as [Hnil Hne]. destruct (Paths ku) as [|p ps]; [done|].
      by rewrite (mergeDevPaths_nil_map _ _ _ Hnil).
    + destruct (MergedPaths ku) as [mp|] eqn:Hmp.
      * by rewrite (mergeDevPaths_map _ _ _ Hmp).
      * destruct (Paths ku) as [|p ps] eqn:Hps; [|exfalso; by apply Hd].
        simpl. destruct ku as [ps m]. simpl in *. by subst.
  - cbn. rewrite decide_False by (by intros [_ ?]).
    rewrite setAll_nil_fmap. by destruct k.
Qed.

Lemma completePlatform_cases k platformConfig :
  completePlatform k platformConfig =
    match configError platformConfig with
    | Some msg => (k, Returns (Some (ConfigError msg)))
    | None =>
        if decide (MergedPaths k = None ∧ platformPaths platformConfig ≠ [])
        then (k, Panics NilMapAssignment)
        else ({| Paths := Paths k;
                 MergedPaths := setAll (platformPaths platformConfig) <$> MergedPaths k |},
              Returns None)
    end.
Proof.
  unfold configError. destruct platformConfig as [c|].
  - unfold completePlatform, platformPaths.
    destruct (Unmarshal c _) as [tmpK err] eqn:Hu.
    assert (err = ConfigError <$> c_error c ∧ Paths tmpK = default [] (c_paths c))
      as [-> HP] by (unfold Unmarshal in Hu; by simplify_eq).
    cbn [fst mbind option_bind]. rewrite <- HP.
    destruct (c_error c) as [msg|]; cbn [fmap option_fmap option_map]; [done|].
    case_decide as Hd.
    + destruct Hd as [Hnil Hne]. destruct (Paths tmpK) as [|p ps]; [done|].
      by rewrite (mergePlatformPaths_nil_map _ _ _ Hnil).
    + destruct (MergedPaths k) as [mp|] eqn:Hmp.
      * by rewrite (mergePlatformPaths_map _ _ _ Hmp).
      * destruct (Paths tmpK) as [|p ps] eqn:Hps; [|exfalso; by apply Hd].
        simpl. destruct k as [ps m]. simpl in *. by subst.
  - cbn. rewrite decide_False by (by intros [_ ?]).
    rewrite setAll_nil_fmap. by destruct k.
Qed.

(** What [CompleteConfig] does, case by case. *)
Lemma CompleteConfig_cases k devConfig platformConfig :
  CompleteConfig k devConfig platformConfig =
    match configError devConfig with
    | Some msg => (decoded k devConfig, Returns (Some (ConfigError msg)))
    | None =>
        if decide (MergedPaths (decoded k devConfig) = None ∧ devPaths k devConfig ≠ [])
        then (decoded k devConfig, Panics NilMapAssignment)
        else
          match configError platformConfig with
          | Some msg => (developerMerged k devConfig, Returns (Some (ConfigError msg)))
          | None =>
              if decide (MergedPaths (decoded k devConfig) = None
                         ∧ platformPaths platformConfig ≠ [])
              then (developerMerged k devConfig, Panics NilMapAssignment)
              else (completed k devConfig platformConfig, Returns None)
          end
    end.
Proof.
  unfold CompleteConfig. rewrite completeDev_cases.
  destruct (configError devConfig) as [msg|]; [done|].
  case_decide as Hdev; [done|]. rewrite completePlatform_cases.
  destruct (configError platformConfig) as [msg|]; [done|].
  assert (MergedPaths (developerMerged k devConfig) = None
          ↔ MergedPaths (decoded k devConfig) = None) as Hnil.
  { unfold developerMerged. simpl. by destruct (MergedPaths (decoded k devConfig)). }
  destruct (decide (MergedPaths (decoded k devConfig) = None
                    ∧ platformPaths platformConfig ≠ [])) as [Hp|Hp].
  - rewrite decide_True; [done|]. by rewrite Hnil.
  - rewrite decide_False by (by rewrite Hnil). f_equal.
    unfold completed, developerMerged. simpl. f_equal.
    destruct (MergedPaths (decoded k devConfig)); simpl; [|done].
    by rewrite setAll_app.
Qed.

(** X15.  [CompleteConfig] returns an error in two cases only.  When
    the developer configuration fails to decode, the platform
    configuration is not read and the instance holds what was decoded.
    When the developer configuration is merged and the platform
    configuration fails to decode, the error is returned with the
    developer paths already merged into the instance. *)
Theorem CompleteConfig_error k devConfig platformConfig k' err :
  CompleteConfig k devConfig platformConfig = (k', Returns (Some err)) ↔
  (∃ msg, configError devConfig = Some msg ∧ err = ConfigError msg ∧
          k' = decoded k devConfig) ∨
  (configError devConfig = None ∧
   ¬ (MergedPaths (decoded k devConfig) = None ∧ devPaths k devConfig ≠ []) ∧
   ∃ msg, configError platformConfig = Some msg ∧ err = ConfigError msg ∧
          k' = developerMerged k devConfig).
Proof.
  rewrite CompleteConfig_cases.
  destruct (configError devConfig) as [msg|].
  { split.
    - intros [= <- <-]. left. by exists msg.
    - intros [(m & [= <-] & -> & ->)|(? & _)]; done. }
  case_decide as Hdev.
  { split; [done|]. intros [(m & ? & _)|(_ & Hno & _)]; done. }
  destruct (configError platformConfig) as [msg|].
  { split.
    - intros [= <- <-]. right. split_and!; [done | done |]. by exists msg.
    - intros [(m & ? & _)|(_ & _ & m & [= <-] & -> & ->)]; done. }
  split.
  - by case_decide.
  - intros [(m & ? & _)|(_ & _ & m & ? & _)]; done.
Qed.

(** X16.  [CompleteConfig] panics exactly when a path has to be
    written while the map of the instance is [nil], which the decoding
    of the developer configuration decides; the panic is the one of an
    assignment to an entry of a [nil] map.  On an instance whose map is
    allocated it panics only if the developer configuration resets the
    map. *)
Theorem CompleteConfig_panic k devConfig platformConfig :
  (∀ k' r,
     CompleteConfig k devConfig platformConfig = (k', Panics r) ↔
     r = NilMapAssignment ∧
     configError devConfig = None ∧
     MergedPaths (decoded k devConfig) = None ∧
     k' = decoded k devConfig ∧
     (devPaths k devConfig ≠ [] ∨
      configError platformConfig = None ∧ platformPaths platformConfig ≠ [])) ∧
  (is_Some (MergedPaths k) →
   (∀ c, devConfig = Some c → c_mergedPaths c ≠ Some None) →
   ∀ k' r, CompleteConfig k devConfig platformConfig ≠ (k', Panics r)).
Proof.
  assert (∀ k' r,
     CompleteConfig k devConfig platformConfig = (k', Panics r) ↔
     r = NilMapAssignment ∧
     configError devConfig = None ∧
     MergedPaths (decoded k devConfig) = None ∧
     k' = decoded k devConfig ∧
     (devPaths k devConfig ≠ [] ∨
      configError platformConfig = None ∧ platformPaths platformConfig ≠ [])) as Hiff.
  { intros k' r. rewrite CompleteConfig_cases.
    destruct (configError devConfig) as [msg|]; [split; [done | by intros (_ & ? & _)]|].
    case_decide as Hdev.
    { destruct Hdev as [Hnil Hne]. split.
      - intros [= <- <-]. split_and!; try done. by left.
      - by intros (-> & _ & _ & -> & _). }
    destruct (configError platformConfig) as [msg|].
    { split; [done|]. intros (_ & _ & Hnil & _ & [Hne|[? _]]); [|done].
      by destruct Hdev. }
    case_decide as Hplat.
    - destruct Hplat as [Hnil Hne]. split.
      + intros [= <- <-]. split_and!; try done; [|by right].
        unfold developerMerged. rewrite Hnil. simpl.
        destruct (decoded k devConfig) as [ps m]. simpl in *. by subst.
      + intros (-> & _ & _ & -> & _). do 2 f_equal.
        unfold developerMerged. rewrite Hnil. simpl.
        destruct (decoded k devConfig) as [ps m]. simpl in *. by subst.
    - split; [done|]. intros (_ & _ & Hnil & _ & [Hne|[_ Hne]]).
      + by destruct Hdev.
      + by destruct Hplat. }
  split; [exact Hiff|].
  intros [mp Hmp] Hreset k' r (_ & _ & Hnil & _)%Hiff.
  unfold decoded in Hnil. destruct devConfig as [c|]; [|congruence].
  specialize (Hreset c eq_refl). unfold Unmarshal in Hnil. simpl in Hnil.
  destruct (c_mergedPaths c) as [[entries|]|]; [done | done | congruence].
Qed.

(** X17.  A second [CompleteConfig] with the same two configurations
    changes nothing: it returns [nil] again and leaves the instance as
    the first call left it. *)
Theorem CompleteConfig_idempotent k devConfig platformConfig k' :
  CompleteConfig k devConfig platformConfig = (k', Returns None) →
  CompleteConfig k' devConfig platformConfig = (k', Returns None).
Proof. apply CompleteConfig_again. Qed.

(** X18.  Without a [mergedPaths] key in the developer configuration a
    call removes nothing from the map of the instance: a path merged
    before the call is merged after it. *)
Theorem CompleteConfig_keeps_paths k devConfig platformConfig k' path :
  CompleteConfig k devConfig platformConfig = (k', Returns None) →
  (∀ c, devConfig = Some c → c_mergedPaths c = None) →
  (is_Some (mergedMap k !! path) → is_Some (mergedMap k' !! path)) ∧
  (merged k path = true → merged k' path = true).
Proof.
  intros (_ & _ & Hnil & ->)%CompleteConfig_Returns Hkey.
  assert (mergedMap (decoded k devConfig) = mergedMap k) as Hsame.
  { unfold mergedMap, decoded. destruct devConfig as [c|]; [|done].
    unfold Unmarshal. simpl. by rewrite (Hkey c eq_refl). }
  rewrite !merged_true, completed_lookup, Hsame by done.
  case_decide; [|done]. split; intros _; [by eexists | done].
Qed.

(** X19.  [ValidateConfig] rejects an instance exactly when its map
    has no entry, whatever the values of the entries; after a
    [CompleteConfig] that returned [nil] for configurations declaring
    at least one path it accepts the instance. *)
Theorem ValidateConfig_spec k :
  (ValidateConfig k = Some ErrEmptyPaths ↔ mergedMap k = ∅) ∧
  (ValidateConfig k = None ↔ ∃ path, is_Some (mergedMap k !! path)) ∧
  (∀ devConfig platformConfig k',
     CompleteConfig k devConfig platformConfig = (k', Returns None) →
     devPaths k devConfig ++ platformPaths platformConfig ≠ [] →
     ValidateConfig k' = None).
Proof.
  assert (∀ k0, ValidateConfig k0 = Some ErrEmptyPaths ↔ mergedMap k0 = ∅) as Herr.
  { intros k0. rewrite ValidateConfig_error. fold (mergedMap k0). unfold keys. split.
    - intros Hk. apply fmap_nil_inv in Hk. by apply map_to_list_empty_iff.
    - intros ->. by rewrite map_to_list_empty. }
  assert (∀ k0, ValidateConfig k0 = None ↔ ∃ path, is_Some (mergedMap k0 !! path)) as Hok.
  { intros k0. split.
    - intros Hnone. destruct (decide (mergedMap k0 = ∅)) as [Hempty|Hne].
      + apply Herr in Hempty. congruence.
      + apply map_choose in Hne as (path & v & Hv). by exists path, v.
    - intros (path & v & Hv). destruct (ValidateConfig k0) as [e|] eqn:Hval; [|done].
      assert (e = ErrEmptyPaths) as ->
        by (unfold ValidateConfig in Hval; by case_bool_decide; simplify_eq).
      apply Herr in Hval. rewrite Hval in Hv. by rewrite lookup_empty in Hv. }
  split_and!; [apply Herr | apply Hok |].
  intros devConfig platformConfig k' (_ & _ & Hnil & ->)%CompleteConfig_Returns Hpaths.
  apply Hok. destruct (devPaths k devConfig ++ platformPaths platformConfig)
    as [|path rest] eqn:Hall; [done|].
  exists path. rewrite completed_lookup, Hall by (by rewrite Hall).
  rewrite decide_True by left. by eexists.
Qed.

(** ** The theorems at concrete inputs *)

Lemma ignoreFile_last_extension_witness :
  ignoreFile cluster "manifests/v1.2/web.YAML" FileExtensions = false.
Proof.
  change "manifests/v1.2/web.YAML" with ("manifests/v1.2/web" +:+ String "." "YAML").
  destruct (ignoreFile_last_extension cluster "manifests/v1.2/web" "YAML" FileExtensions)
    as [_ ->].
  - repeat constructor; discriminate.
  - reflexivity.
Defined.


Lemma Generate_bad_document_witness :
  ∃ wanted found,
    (Generate cluster inOrder main (developer ["manifests"; "broken.yaml"])).2
    = (None, Some (RecoveredPanic (TypeAssertion wanted found)
                     "goroutine 1 [running]" "{}")).
Proof.
  pose (request := developer ["manifests"; "broken.yaml"]).
  pose (completion := CompleteConfig main (DevConfig request) (PlatformConfig request)).
  pose (visit := visitPaths cluster (rangePaths inOrder completion.1) ∅).
  destruct (Generate_bad_document cluster inOrder main request completion.1 visit.1 noKind)
    as (wanted & found & Hgen).
  - rewrite (surjective_pairing completion) at 1; f_equal; vm_compute; reflexivity.
  - rewrite (surjective_pairing visit) at 1; f_equal; vm_compute; reflexivity.
  - apply list_elem_of_lookup. exists 2%nat. vm_compute. reflexivity.
  - intros (a & kd & ns & n & _ & Hkind & _). vm_compute in Hkind. discriminate Hkind.
  - exists wanted, found. fold request. rewrite Hgen. reflexivity.
Defined.

Lemma visitPaths_error_witness :
  ∃ docs, Open damaged "bad.yaml" = Ok (docs, Some "did not find expected key").
Proof.
  destruct (visitPaths_error damaged ["bad.yaml"] ∅
              (visitPaths damaged ["bad.yaml"] ∅).1
              (ParseError "bad.yaml" "did not find expected key"))
    as [(f & msg & docs & [= <- <-] & Hopen)|(msg & [=] & _)].
  - rewrite (surjective_pairing (visitPaths _ _ _)) at 1; f_equal; vm_compute; reflexivity.
  - by exists docs.
Defined.

Lemma Generate_unreadable_path_witness :
  ∃ err,
    (Generate cluster inOrder main (developer ["manifests"; "absent"])).2 = (None, Some err) ∧
    ((∃ msg, err = PathError msg) ∨ (∃ filePath msg, err = ParseError filePath msg)).
Proof.
  pose (request := developer ["manifests"; "absent"]).
  destruct (Generate_unreadable_path cluster inOrder main request
              (completed main (DevConfig request) (PlatformConfig request)) "absent")
    as (err & Hgen & Hkind).
  - apply CompleteConfig_Returns. split_and!; [done | done | discriminate | done].
  - exact fair_inOrder.
  - rewrite completed_lookup by discriminate.
    rewrite decide_True; [by eexists|]. simpl. set_solver.
  - reflexivity.
  - exists err. fold request. rewrite Hgen. split; [reflexivity | exact Hkind].
Defined.

Lemma Generate_single_file_witness :
  Generate cluster backwards main (developer ["extra/cm.json"])
  = ({| Paths := ["extra/cm.json"]; MergedPaths := Some {["extra/cm.json" := true]} |},
     (Some {| Resources := [{| ID := "v1:ConfigMap:settings"; Type_ := Kubernetes;
                               Attributes := configMap |}] |}, None)).
Proof.
  apply (Generate_single_file cluster backwards "extra/cm.json" [configMap]).
  - exact fair_backwards.
  - reflexivity.
  - reflexivity.
  - repeat constructor.
Defined.

Lemma CompleteConfig_panic_witness :
  ¬ ∃ k' r, CompleteConfig main (Some (declares ["manifests"])) None = (k', Panics r).
Proof.
  intros (k' & r & Hpanic).
  apply (proj2 (CompleteConfig_panic main (Some (declares ["manifests"])) None)) in Hpanic.
  - exact Hpanic.
  - by eexists.
  - by intros c [= <-].
Defined.

Lemma CompleteConfig_idempotent_witness :
  CompleteConfig (completed main (Some (declares ["manifests"])) None)
    (Some (declares ["manifests"])) None
  = (completed main (Some (declares ["manifests"])) None, Returns None).
Proof.
  apply (CompleteConfig_idempotent main).
  apply CompleteConfig_Returns. split_and!; [done | done | discriminate | done].
Defined.

Lemma CompleteConfig_keeps_paths_witness :
  merged (completed {| Paths := []; MergedPaths := Some {["old.yaml" := true]} |}
            (Some (declares ["manifests"])) None) "old.yaml" = true.
Proof.
  apply (CompleteConfig_keeps_paths
           {| Paths := []; MergedPaths := Some {["old.yaml" := true]} |}
           (Some (declares ["manifests"])) None).
  - apply CompleteConfig_Returns. split_and!; [done | done | discriminate | done].
  - by intros c [= <-].
  - unfold merged. simpl. by rewrite lookup_singleton_eq.
Defined.

Lemma ValidateConfig_spec_witness :
  ValidateConfig (completed main (Some (declares ["manifests"])) None) = None.
Proof.
  apply (proj2 (proj2 (ValidateConfig_spec main)) (Some (declares ["manifests"])) None).
  - apply CompleteConfig_Returns. split_and!; [done | done | discriminate | done].
  - discriminate.
Defined.

End K8sManifestMore.
